(** * Exact deduplication and sharding pipeline of [deduplicate.py]

    A shallow embedding of the functions of [deduplicate.py] and the
    properties of its specification.

    Conventions of the embedding.
    - A Python [str] is a list of Unicode code points ([list N]); [bytes]
      is a list of byte values ([list N], each below 256).
    - A hexadecimal digest is a [string]; the unique-hash set, a Python
      [set] of digests that [check_uniques] mutates in place, is a
      [gset string] threaded through every call that receives the set.
    - Python exceptions are the [Raise] results of the [result] type.
    - Python floats are modelled by [pyfloat]: a rational value, or one of
      the special values.  The records carry the exact fraction of
      [alpha_stats]; [binary64] is the rounding to doubles, and
      [alpha_stats_binary64] the double that [np.mean] returns.
    - Library functions whose tables or algorithms are not part of the
      program ([str.isalnum], [hashlib.md5], [json], [gzip],
      [deduplicate_dataset]) are variables of the section. *)

From Stdlib Require Import QArith Qcanon Ascii.
From stdpp Require Import gmap strings list pretty numbers.

#[local] Set Warnings "-clear-no-such-hyp".

Local Open Scope N_scope.

(** ** Results and exceptions *)

Inductive exn : Set :=
  | ZeroDivisionError
  | UnicodeEncodeError
  | ValueError
  | IndexError
  | FileNotFoundError
  | OSError.

Inductive result (A : Type) : Type :=
  | Ok (a : A)
  | Raise (e : exn).
Arguments Ok {A} a.
Arguments Raise {A} e.

#[global] Instance result_ret : MRet result := λ A a, Ok a.
#[global] Instance result_bind : MBind result := λ A B f m,
  match m with
  | Ok a => f a
  | Raise e => Raise e
  end.

(** ** Floats *)

Inductive pyfloat : Type :=
  | NaN
  | NegInf
  | Fin (q : Qc)
  | PosInf.

(** [a < b] on floats; every comparison with [NaN] is false. *)
Definition float_lt (a b : pyfloat) : bool :=
  match a, b with
  | NaN, _ | _, NaN => false
  | NegInf, NegInf => false
  | NegInf, _ => true
  | Fin _, NegInf => false
  | Fin x, Fin y => bool_decide (x < y)%Qc
  | Fin _, PosInf => true
  | PosInf, _ => false
  end.

(** ** Text *)

Abbreviation str := (list N).
Abbreviation bytes := (list N).

(** Unicode whitespace, the class that [\s] matches in a [str] pattern. *)
Definition isspace (c : N) : bool :=
  bool_decide (0x09 ≤ c ≤ 0x0D) || bool_decide (0x1C ≤ c ≤ 0x20)
  || bool_decide (c = 0x85) || bool_decide (c = 0xA0)
  || bool_decide (c = 0x1680) || bool_decide (0x2000 ≤ c ≤ 0x200A)
  || bool_decide (c = 0x2028) || bool_decide (c = 0x2029)
  || bool_decide (c = 0x202F) || bool_decide (c = 0x205F)
  || bool_decide (c = 0x3000).

(** [re.sub(PATTERN, "", s)] with [PATTERN = \s+]: a left-to-right scan in
    which every maximal run of whitespace is one match, replaced by the
    empty string.  [in_match] tells whether the scan is inside a match. *)
Fixpoint re_sub_go (in_match : bool) (s : str) : str :=
  match s with
  | [] => []
  | c :: rest =>
      if isspace c then
        (* [c] starts a match, or extends the current one *)
        re_sub_go true rest
      else
        (* the current match, if any, ends here; [c] is copied *)
        c :: re_sub_go false rest
  end.

Definition re_sub_PATTERN (s : str) : str := re_sub_go false s.

(** [str.encode("utf-8")] of one code point.  Surrogates and values that
    are not code points cannot be encoded. *)
Definition utf8_encode_char (c : N) : result bytes :=
  if bool_decide (c < 0x80) then Ok [c]
  else if bool_decide (c < 0x800) then
    Ok [N.lor 0xC0 (N.shiftr c 6); N.lor 0x80 (N.land c 0x3F)]
  else if bool_decide (c < 0x10000) then
    if bool_decide (0xD800 ≤ c ≤ 0xDFFF) then Raise UnicodeEncodeError
    else Ok [N.lor 0xE0 (N.shiftr c 12);
             N.lor 0x80 (N.land (N.shiftr c 6) 0x3F);
             N.lor 0x80 (N.land c 0x3F)]
  else if bool_decide (c < 0x110000) then
    Ok [N.lor 0xF0 (N.shiftr c 18);
        N.lor 0x80 (N.land (N.shiftr c 12) 0x3F);
        N.lor 0x80 (N.land (N.shiftr c 6) 0x3F);
        N.lor 0x80 (N.land c 0x3F)]
  else Raise UnicodeEncodeError.

Fixpoint encode_utf8 (s : str) : result bytes :=
  match s with
  | [] => Ok []
  | c :: rest =>
      b ← utf8_encode_char c;
      bs ← encode_utf8 rest;
      mret (b ++ bs)
  end.

(** Line boundaries of [str.splitlines]. *)
Definition islinebreak (c : N) : bool :=
  bool_decide (0x0A ≤ c ≤ 0x0D) || bool_decide (0x1C ≤ c ≤ 0x1E)
  || bool_decide (c = 0x85) || bool_decide (c = 0x2028)
  || bool_decide (c = 0x2029).

(** [str.splitlines()]: [cur] is the line being read, in reverse, or [None]
    between lines; a carriage return followed by a line feed is one
    boundary; no empty line is produced after a final boundary. *)
Fixpoint splitlines_go (cur : option str) (s : str) : list str :=
  match s with
  | [] =>
      match cur with
      | None => []
      | Some l => [reverse l]
      end
  | c :: rest =>
      if islinebreak c then
        reverse (default [] cur) ::
          match rest with
          | c' :: rest' =>
              if bool_decide (c = 0x0D) && bool_decide (c' = 0x0A)
              then splitlines_go None rest'
              else splitlines_go None rest
          | [] => []
          end
      else splitlines_go (Some (c :: default [] cur)) rest
  end.

Definition splitlines (s : str) : list str := splitlines_go None s.

(** The mean of a list of booleans before rounding: the sum of the values,
    each [True] counting for one, divided by their number; the mean of no
    value is [nan].  [np_mean_binary64] below is the double that [np.mean]
    returns. *)
Definition np_mean (l : list bool) : pyfloat :=
  match l with
  | [] => NaN
  | _ :: _ =>
      Fin (Qc_of_Z (Z.of_nat (length (filter (λ b, b = true) l)))
           / Qc_of_Z (Z.of_nat (length l)))%Qc
  end.

(** ** Binary64

    The doubles are the rationals [m * 2^e] with [m] of at most 53 bits and
    [e] from -1074 on; an operation returns the double nearest to its exact
    result, ties going to the even [m].  Signed zeros are not told
    apart. *)

(** [a / b] rounded to the nearest integer, ties to even, for [0 ≤ a] and
    [0 < b]. *)
Definition round_half_even (a b : Z) : Z :=
  let q := (a `div` b)%Z in
  let r := (a `mod` b)%Z in
  if bool_decide (2 * r < b)%Z then q
  else if bool_decide (b < 2 * r)%Z then (q + 1)%Z
  else if Z.even q then q else (q + 1)%Z.

(** The [l] with [2^l ≤ a / b < 2^(l+1)], for [0 < a] and [0 < b]. *)
Definition floor_log2 (a b : Z) : Z :=
  let l := (Z.log2 a - Z.log2 b)%Z in
  if bool_decide (0 ≤ l)%Z then
    if bool_decide (b * 2 ^ l ≤ a)%Z then l else (l - 1)%Z
  else
    if bool_decide (b ≤ a * 2 ^ (- l))%Z then l else (l - 1)%Z.

(** The digits [m] and the exponent [e] of the double nearest to [a / b],
    for [0 < a] and [0 < b]. *)
Definition binary64_digits (a b : Z) : Z * Z :=
  let e := Z.max (floor_log2 a b - 52) (-1074) in
  let m :=
    if bool_decide (0 ≤ e)%Z then round_half_even a (b * 2 ^ e)
    else round_half_even (a * 2 ^ (- e)) b in
  (m, e)%Z.

(** [m * 2^e] *)
Definition binary64_value (m e : Z) : Qc :=
  if bool_decide (0 ≤ e)%Z then Qc_of_Z (m * 2 ^ e)
  else (Qc_of_Z m / Qc_of_Z (2 ^ (- e)))%Qc.

(** The double nearest to [x]; beyond the largest double, an infinity. *)
Definition binary64 (x : Qc) : pyfloat :=
  let a := Qnum x in
  let b := Z.pos (Qden x) in
  if bool_decide (a = 0)%Z then Fin 0%Qc
  else
    let '(m, e) := binary64_digits (Z.abs a) b in
    if bool_decide (0 ≤ e ∧ 2 ^ 1024 ≤ m * 2 ^ e)%Z then
      if bool_decide (0 < a)%Z then PosInf else NegInf
    else
      if bool_decide (0 < a)%Z then Fin (binary64_value m e)
      else Fin (- binary64_value m e)%Qc.

(** The double of an integer. *)
Definition float_of_nat (n : nat) : pyfloat := binary64 (Qc_of_Z (Z.of_nat n)).

(** [x + y] and [x / y] on doubles, as numpy computes them: no exception,
    [nan] for the undefined cases. *)
Definition float_add (x y : pyfloat) : pyfloat :=
  match x, y with
  | NaN, _ | _, NaN => NaN
  | PosInf, NegInf | NegInf, PosInf => NaN
  | PosInf, _ | _, PosInf => PosInf
  | NegInf, _ | _, NegInf => NegInf
  | Fin a, Fin b => binary64 (a + b)%Qc
  end.

Definition float_div (x y : pyfloat) : pyfloat :=
  match x, y with
  | NaN, _ | _, NaN => NaN
  | (PosInf | NegInf), (PosInf | NegInf) => NaN
  | PosInf, Fin b => if bool_decide (b < 0)%Qc then NegInf else PosInf
  | NegInf, Fin b => if bool_decide (b < 0)%Qc then PosInf else NegInf
  | Fin _, (PosInf | NegInf) => Fin 0%Qc
  | Fin a, Fin b =>
      if bool_decide (b = 0%Qc) then
        if bool_decide (a = 0%Qc) then NaN
        else if bool_decide (0 < a)%Qc then PosInf else NegInf
      else binary64 (a / b)%Qc
  end.

(** The double of a boolean: 1.0 or 0.0. *)
Definition float_of_bool (b : bool) : pyfloat :=
  Fin (if b then 1 else 0)%Qc.

(** The values added as doubles, from [start]. *)
Definition float_sum (l : list bool) (start : pyfloat) : pyfloat :=
  foldl (λ acc b, float_add acc (float_of_bool b)) start l.

(** [np.mean] as numpy computes it on booleans: the values become doubles,
    are added as doubles, and the sum is divided by their number; the mean
    of no value is 0.0 / 0, which is [nan].  (numpy adds pairwise; below
    2^53 values every partial sum is exact and the order of the additions
    plays no part.) *)
Definition np_mean_binary64 (l : list bool) : pyfloat :=
  float_div (float_sum l (Fin 0%Qc)) (float_of_nat (length l)).

(** [f"{n:012}"]: the decimal digits of [n], padded with zeros on the left
    to a width of twelve. *)
Definition format_012 (n : nat) : string :=
  let digits := pretty n in
  String.concat "" (replicate (12 - String.length digits) "0"%string)
    +:+ digits.

(** [a / b] on integers. *)
Definition py_truediv (a b : nat) : result pyfloat :=
  match b with
  | O => Raise ZeroDivisionError
  | S _ => Ok (Fin (Qc_of_Z (Z.of_nat a) / Qc_of_Z (Z.of_nat b))%Qc)
  end.

(** [list(range(start, stop, step))]: the length is computed first, item
    [i] is [start + i * step]; a zero step is refused. *)
Definition py_range (start stop step : Z) : result (list Z) :=
  if bool_decide (step = 0)%Z then Raise ValueError
  else
    let len :=
      if bool_decide (0 < step)%Z then
        if bool_decide (start < stop)%Z
        then ((stop - start - 1) `div` step + 1)%Z else 0%Z
      else
        if bool_decide (stop < start)%Z
        then ((start - stop - 1) `div` (- step) + 1)%Z else 0%Z in
    Ok ((λ i : nat, (start + Z.of_nat i * step)%Z) <$> seq 0 (Z.to_nat len)).

(** [enumerate(l)] *)
Definition enumerate {A} (l : list A) : list (nat * A) :=
  imap (λ i x, (i, x)) l.

(** ** Configuration *)

Module Args.

(** Modelled from the spec: the declaration of [PreprocessingArguments] is
    in [arguments.py]; the fields are the options the program reads
    ([dataset_name], [dataset_subset], [output_dir], [samples_per_file],
    [alpha_frac], [jaccard_threshold]) and the compression level that the
    specification lists among the recognized options. *)
Record t : Type := {
  dataset_name : string;
  dataset_subset : string;
  output_dir : string;
  samples_per_file : Z;
  alpha_frac : pyfloat;
  jaccard_threshold : pyfloat;
  compression_level : Z
}.

End Args.

(** ** Records *)

(** A record of the dataset after [ds.map(preprocess)]: the text and the
    three columns that [preprocess] adds. *)
Record example : Type := {
  text : str;
  hash : string;
  alpha_frac : pyfloat;
  line_len : list nat
}.

(** Faults of the environment during one call of [compress_file]: the
    source cannot be opened, the compressed file cannot be created, the
    copy stops and the compressed file is closed with the content [partial],
    or the source cannot be removed. *)
Inductive io_fault : Type :=
  | NoFault
  | OpenFails
  | CreateFails
  | CopyFails (partial : bytes)
  | UnlinkFails.

(** The files of the file system: path to content. *)
Abbreviation filesystem := (gmap string bytes).

(** Two texts differ only in whitespace when one is obtained from the
    other by inserting and deleting whitespace characters, at any place and
    in any number. *)
Inductive differ_in_whitespace : str → str → Prop :=
  | diw_nil : differ_in_whitespace [] []
  | diw_same c s t :
      differ_in_whitespace s t → differ_in_whitespace (c :: s) (c :: t)
  | diw_left c s t :
      isspace c = true → differ_in_whitespace s t →
      differ_in_whitespace (c :: s) t
  | diw_right c s t :
      isspace c = true → differ_in_whitespace s t →
      differ_in_whitespace s (c :: t).

(** ** Data for the examples *)

(** [str.isalnum] on ASCII: digits and letters. *)
Definition isalnum_ascii (c : N) : bool :=
  bool_decide (0x30 ≤ c ≤ 0x39) || bool_decide (0x41 ≤ c ≤ 0x5A)
  || bool_decide (0x61 ≤ c ≤ 0x7A).

(** The punctuation of ASCII, [string.punctuation]. *)
Definition ispunct_ascii (c : N) : bool :=
  bool_decide (0x21 ≤ c ≤ 0x2F) || bool_decide (0x3A ≤ c ≤ 0x40)
  || bool_decide (0x5B ≤ c ≤ 0x60) || bool_decide (0x7B ≤ c ≤ 0x7E).

(** A digest for the examples: the sum of the bytes, in decimal. *)
Definition digest_sum (data : bytes) : string := pretty (foldr N.add 0 data).

(** A file format for the examples: the level, then the data as it is. *)
Definition gzip_stored (level : Z) (data : bytes) : bytes :=
  Z.to_N level :: data.

(** The texts ["ab cd"], ["abcd"] and ["abc"] after preprocessing with MD5. *)
Definition record_ab_cd : example :=
  {| text := [0x61; 0x62; 0x20; 0x63; 0x64];
     hash := "e2fc714c4727ee9395f324cd2e7f331f";
     alpha_frac := Fin (Qc_of_Z 4 / Qc_of_Z 5)%Qc;
     line_len := [5%nat] |}.

Definition record_abcd : example :=
  {| text := [0x61; 0x62; 0x63; 0x64];
     hash := "e2fc714c4727ee9395f324cd2e7f331f";
     alpha_frac := Fin (Qc_of_Z 4 / Qc_of_Z 4)%Qc;
     line_len := [4%nat] |}.

Definition record_abc : example :=
  {| text := [0x61; 0x62; 0x63];
     hash := "900150983cd24fb0d6963f7d28e17f72";
     alpha_frac := Fin (Qc_of_Z 3 / Qc_of_Z 3)%Qc;
     line_len := [3%nat] |}.

Definition corpus_abc : list example :=
  [record_ab_cd; record_abcd; record_abc].

(** A configuration that asks for a fraction of 0.9 and for level 9. *)
Definition args_level_9 : Args.t :=
  {| Args.dataset_name := "codeparrot";
     Args.dataset_subset := "train";
     Args.output_dir := "out";
     Args.samples_per_file := 2;
     Args.alpha_frac := Fin (Qc_of_Z 9 / Qc_of_Z 10)%Qc;
     Args.jaccard_threshold := Fin (Qc_of_Z 85 / Qc_of_Z 100)%Qc;
     Args.compression_level := 9 |}.

(** A serialization for the examples: the texts, one per line. *)
Definition text_lines (rows : list example) : bytes :=
  flat_map (λ ex, text ex ++ [0x0A]) rows.

(** A file system with the first shard, not yet compressed. *)
Definition fs_one_shard : filesystem :=
  {[ "out/data/file-000000000001.json"%string := [0x7B; 0x7D; 0x0A] ]}.

(** The three texts, and their records after preprocessing with
    [isalnum_ascii] and [digest_sum]. *)
Definition texts_abc : list str :=
  [[0x61; 0x62; 0x20; 0x63; 0x64]; [0x61; 0x62; 0x63; 0x64];
   [0x61; 0x62; 0x63]].

Definition with_hash (h : string) (ex : example) : example :=
  {| text := text ex; hash := h;
     alpha_frac := alpha_frac ex; line_len := line_len ex |}.

Definition records_abc_sum : list example :=
  [with_hash "394" record_ab_cd; with_hash "394" record_abcd;
   with_hash "294" record_abc].

(** The records that are left of them: the second has the hash of the
    first. *)
Definition records_ab_sum : list example :=
  [with_hash "394" record_ab_cd; with_hash "294" record_abc].

(** A configuration with a minimum fraction and a shard size. *)
Definition args_with (minimum : pyfloat) (samples_per_file : Z) : Args.t :=
  {| Args.dataset_name := "codeparrot";
     Args.dataset_subset := "train";
     Args.output_dir := "out";
     Args.samples_per_file := samples_per_file;
     Args.alpha_frac := minimum;
     Args.jaccard_threshold := Fin (Qc_of_Z 85 / Qc_of_Z 100)%Qc;
     Args.compression_level := 6 |}.

Definition one_half : pyfloat := Fin (Qc_of_Z 1 / Qc_of_Z 2)%Qc.

(** A clustering for the examples, which finds no near duplicate and
    reports no cluster, and the content written for it. *)
Definition keep_all (ds : list example) (threshold : pyfloat)
    : list example * () := (ds, ()).

Definition no_clusters (clusters : ()) : bytes := [0x7B; 0x7D].

(** An environment in which the copy of the second shard stops. *)
Definition fault_at_second (file_number : nat) : io_fault :=
  if decide (file_number = 1%nat) then CopyFails [0x1F] else NoFault.

(** ** The program *)

Module deduplicate.

Section program.

#[local] Set Default Proof Using "Type".

(** [str.isalnum] of one character. *)
Variable isalnum : N → bool.
(** [hashlib.md5(data).hexdigest()] *)
Variable md5_hexdigest : bytes → string.
(** The clusters that [deduplicate_dataset] returns with the reduced
    dataset. *)
Variable cluster_map : Type.
(** [deduplicate_dataset(ds, jaccard_threshold)] of
    [minhash_deduplication]. *)
Variable deduplicate_dataset : list example → pyfloat → list example * cluster_map.
(** The content that [json.dump] writes for the clusters, and
    [Dataset.to_json] for a list of records. *)
Variable json_dump : cluster_map → bytes.
Variable to_json : list example → bytes.
(** The content of a gzip file written at [compresslevel] from [data]. *)
Variable gzip_compress : Z → bytes → bytes.

(** Get hash of content field. *)
Definition get_hash (example_text : str) : result string :=
  encoded ← encode_utf8 (re_sub_PATTERN example_text);
  mret (md5_hexdigest encoded).

Definition alpha_stats (example_text : str) : pyfloat :=
  np_mean (isalnum <$> example_text).

(** The double that [alpha_stats] returns in Python; [alpha_stats] above is
    the fraction that this double rounds. *)
Definition alpha_stats_binary64 (example_text : str) : pyfloat :=
  np_mean_binary64 (isalnum <$> example_text).

Definition line_stats (example_text : str) : list nat :=
  length <$> splitlines example_text.

(** Check if current hash is still in set of unique hashes and remove if
    true.  The second component is the set after the call. *)
Definition check_uniques (ex : example) (uniques : gset string)
    : bool * gset string :=
  if bool_decide (hash ex ∈ uniques) then
    (true, uniques ∖ {[hash ex]})
  else
    (false, uniques).

(** Chain all preprocessing steps into one function; [ds.map] adds the
    results to the record. *)
Definition preprocess (example_text : str) : result example :=
  h ← get_hash example_text;
  mret {| text := example_text;
          hash := h;
          alpha_frac := alpha_stats example_text;
          line_len := line_stats example_text |}.

(** Filter dataset with heuristics. *)
Definition filter (ex : example) (uniques : gset string) (args : Args.t)
    : bool * gset string :=
  let '(still_unique, uniques) := check_uniques ex uniques in
  if negb still_unique then
    (false, uniques)
  else if float_lt (alpha_frac ex) (Args.alpha_frac args) then
    (false, uniques)
  else if bool_decide (line_len ex = []) then
    (false, uniques)
  else
    (true, uniques).

(** The level that [compress_file] passes to [gzip.open]. *)
Definition compresslevel : Z := 6.

(** Compress a file with g-zip.  The source is opened for reading, the
    compressed file is created (or truncated) and receives the copy, and
    the source is removed last.  An exception leaves the files as they
    are at that point. *)
Definition compress_file (fault : io_fault) (file_path : string)
    (fs : filesystem) : result () * filesystem :=
  match fs !! file_path with
  | None => (Raise FileNotFoundError, fs)
  | Some data =>
      let gz_path := file_path +:+ ".gz" in
      let compressed := gzip_compress compresslevel data in
      match fault with
      | OpenFails => (Raise OSError, fs)
      | CreateFails => (Raise OSError, fs)
      | CopyFails partial => (Raise OSError, <[gz_path := partial]> fs)
      | UnlinkFails => (Raise OSError, <[gz_path := compressed]> fs)
      | NoFault => (Ok (), delete file_path (<[gz_path := compressed]> fs))
      end
  end.

(** ** The dataset operations the program calls *)

(** The calls of a stateful predicate on the records of the dataset, in
    iteration order, on the one shared set: the verdicts and the set after
    the last call. *)
Fixpoint eval_in_order (fn : example → gset string → bool * gset string)
    (ds : list example) (uniques : gset string) : list bool * gset string :=
  match ds with
  | [] => ([], uniques)
  | ex :: rest =>
      let '(keep, uniques) := fn ex uniques in
      let '(mask, uniques) := eval_in_order fn rest uniques in
      (keep :: mask, uniques)
  end.

(** The records whose verdict is [True]. *)
Fixpoint select_mask (ds : list example) (mask : list bool) : list example :=
  match ds, mask with
  | ex :: ds, keep :: mask =>
      if keep then ex :: select_mask ds mask else select_mask ds mask
  | _, _ => []
  end.

(** [ds.filter(fn, fn_kwargs=...)], evaluated sequentially. *)
Definition Dataset_filter (fn : example → gset string → bool * gset string)
    (ds : list example) (uniques : gset string) : list example * gset string :=
  let '(mask, uniques) := eval_in_order fn ds uniques in
  (select_mask ds mask, uniques).

(** [ds.select(indices)] *)
Definition Dataset_select (ds : list example) (indices : list Z)
    : result (list example) :=
  mapM (λ i : Z,
    if bool_decide (0 ≤ i)%Z then
      match ds !! Z.to_nat i with
      | Some ex => Ok ex
      | None => Raise IndexError
      end
    else Raise IndexError) indices.

(** ** Saving in batches of [samples_per_file] *)

Definition path_join (dir name : string) : string := dir +:+ "/" +:+ name.

(** The records of the shard that starts at [index]. *)
Definition shard_rows (ds_filter : list example) (samples_per_file index : Z)
    : result (list example) :=
  let end_index :=
    Z.min (Z.of_nat (length ds_filter)) (index + samples_per_file) in
  indices ← py_range index end_index 1;
  Dataset_select ds_filter indices.

(** The shards, in the order of the loop. *)
Definition shards (ds_filter : list example) (samples_per_file : Z)
    : result (list (list example)) :=
  starts ← py_range 0 (Z.of_nat (length ds_filter)) samples_per_file;
  mapM (shard_rows ds_filter samples_per_file) starts.

(** One iteration of the loop. *)
Definition save_shard (args : Args.t) (data_dir : string)
    (ds_filter : list example) (fault : io_fault)
    (file_number : nat) (index : Z) (fs : filesystem)
    : result () * filesystem :=
  let file_path :=
    path_join data_dir ("file-" +:+ format_012 (file_number + 1) +:+ ".json") in
  match shard_rows ds_filter (Args.samples_per_file args) index with
  | Raise e => (Raise e, fs)
  | Ok rows => compress_file fault file_path (<[file_path := to_json rows]> fs)
  end.

Fixpoint save_loop (args : Args.t) (data_dir : string)
    (ds_filter : list example) (faults : nat → io_fault)
    (items : list (nat * Z)) (fs : filesystem) : result () * filesystem :=
  match items with
  | [] => (Ok (), fs)
  | (file_number, index) :: items =>
      match save_shard args data_dir ds_filter (faults file_number)
              file_number index fs with
      | (Ok _, fs) => save_loop args data_dir ds_filter faults items fs
      | (Raise e, fs) => (Raise e, fs)
      end
  end.

(** The script, from the loaded dataset [ds] on.  [faults] gives the fault
    of the environment in the compression of each shard.  Directories,
    timings and printed messages are left out. *)
Definition main (args : Args.t) (ds : list str) (faults : nat → io_fault)
    (fs : filesystem) : result () * filesystem :=
  (* Run preprocessing *)
  match mapM preprocess ds with
  | Raise e => (Raise e, fs)
  | Ok ds =>
      (* Deduplicate hashes *)
      let uniques : gset string := list_to_set (hash <$> ds) in
      match py_truediv (size uniques) (length ds) with
      | Raise e => (Raise e, fs)
      | Ok frac =>
          (* Deduplicate data and apply heuristics *)
          let '(ds_filter, uniques) :=
            Dataset_filter (λ ex uniques, filter ex uniques args) ds uniques in
          (* Deduplicate with minhash and jaccard similarity *)
          let '(ds_filter, duplicate_clusters) :=
            deduplicate_dataset ds_filter (Args.jaccard_threshold args) in
          (* Save data in batches of samples_per_file *)
          let output_dir := Args.output_dir args in
          let fs :=
            <[path_join output_dir "duplicate_clusters.json"
                := json_dump duplicate_clusters]> fs in
          let data_dir := path_join output_dir "data" in
          match py_range 0 (Z.of_nat (length ds_filter))
                  (Args.samples_per_file args) with
          | Raise e => (Raise e, fs)
          | Ok starts =>
              save_loop args data_dir ds_filter faults (enumerate starts) fs
          end
      end
  end.

(** ** Notions used by the statements *)

(** The quality checks of [filter], which follow the call of
    [check_uniques]. *)
Definition quality_ok (ex : example) (args : Args.t) : bool :=
  negb (float_lt (alpha_frac ex) (Args.alpha_frac args))
  && negb (bool_decide (line_len ex = [])).

(** A predicate consumes the hash of its record when the set after the call
    is the set before it without that hash. *)
Definition consumes (fn : example → gset string → bool * gset string) : Prop :=
  ∀ ex uniques, (fn ex uniques).2 = uniques ∖ {[hash ex]}.

(** The number of shards: the length that [range] computes. *)
Definition shard_count (total samples_per_file : Z) : Z :=
  if bool_decide (0 < total)%Z
  then ((total - 0 - 1) `div` samples_per_file + 1)%Z else 0%Z.

(** The code points that [str.encode("utf-8")] refuses. *)
Definition not_encodable (c : N) : Prop :=
  0xD800 ≤ c ≤ 0xDFFF ∨ 0x110000 ≤ c.

(** The path of the file of the shard [file_number], before compression,
    and the path of the clusters. *)
Definition shard_path (data_dir : string) (file_number : nat) : string :=
  path_join data_dir ("file-" +:+ format_012 (file_number + 1) +:+ ".json").

Definition clusters_path (args : Args.t) : string :=
  path_join (Args.output_dir args) "duplicate_clusters.json".

Definition data_dir_of (args : Args.t) : string :=
  path_join (Args.output_dir args) "data".

(** The dataset after the pass of [filter] on the set of its hashes, and
    what [deduplicate_dataset] returns for it. *)
Definition filtered_dataset (args : Args.t) (ds : list example)
    : list example :=
  (Dataset_filter (λ ex uniques, filter ex uniques args) ds
     (list_to_set (hash <$> ds))).1.

Definition reduced_dataset (args : Args.t) (ds : list example)
    : list example * cluster_map :=
  deduplicate_dataset (filtered_dataset args ds) (Args.jaccard_threshold args).

(** ** The unique-hash set under [check_uniques] and [filter] *)

(** The library functions play no part in the facts on sets and lists:
    proof search must not pick them up. *)
Local Ltac forget_libraries :=
  try clear to_json; try clear json_dump; try clear gzip_compress;
  try clear deduplicate_dataset; try clear cluster_map;
  try clear md5_hexdigest; try clear isalnum.

Lemma check_uniques_eq (ex : example) (uniques : gset string) :
  check_uniques ex uniques
  = (bool_decide (hash ex ∈ uniques), uniques ∖ {[hash ex]}).
Proof.
  unfold check_uniques. case_bool_decide as Hin; [done|].
  f_equal. apply set_eq. intros h. set_solver.
Qed.

Lemma filter_eq (ex : example) (uniques : gset string) (args : Args.t) :
  filter ex uniques args
  = ((check_uniques ex uniques).1 && quality_ok ex args,
     (check_uniques ex uniques).2).
Proof.
  unfold filter, quality_ok. destruct (check_uniques ex uniques) as [[] U]; simpl;
    [|done].
  destruct (float_lt _ _); simpl; [done|].
  by destruct (bool_decide (line_len ex = [])).
Qed.

Lemma check_uniques_consumes : consumes check_uniques.
Proof. intros ex U. by rewrite check_uniques_eq. Qed.

Lemma filter_consumes (args : Args.t) :
  consumes (λ ex uniques, filter ex uniques args).
Proof. intros ex U. by rewrite filter_eq, check_uniques_eq. Qed.

Lemma eval_in_order_cons fn ex rest uniques :
  eval_in_order fn (ex :: rest) uniques
  = ((fn ex uniques).1 :: (eval_in_order fn rest (fn ex uniques).2).1,
     (eval_in_order fn rest (fn ex uniques).2).2).
Proof.
  simpl. destruct (fn ex uniques) as [b U1]. simpl.
  by destruct (eval_in_order fn rest U1).
Qed.

Lemma eval_in_order_length fn ds uniques :
  length (eval_in_order fn ds uniques).1 = length ds.
Proof.
  revert uniques. induction ds as [|ex rest IH]; intros U; [done|].
  rewrite eval_in_order_cons. simpl. by rewrite IH.
Qed.

Lemma eval_in_order_app fn ds1 ds2 uniques :
  eval_in_order fn (ds1 ++ ds2) uniques
  = ((eval_in_order fn ds1 uniques).1
       ++ (eval_in_order fn ds2 (eval_in_order fn ds1 uniques).2).1,
     (eval_in_order fn ds2 (eval_in_order fn ds1 uniques).2).2).
Proof.
  revert uniques. induction ds1 as [|ex rest IH]; intros U.
  - simpl. by destruct (eval_in_order fn ds2 U).
  - rewrite <- app_comm_cons. rewrite !eval_in_order_cons. simpl.
    by rewrite IH.
Qed.

Lemma eval_in_order_consumed fn ds uniques :
  consumes fn →
  (eval_in_order fn ds uniques).2 = uniques ∖ list_to_set (hash <$> ds).
Proof. forget_libraries.
  intros Hfn. revert uniques. induction ds as [|ex rest IH]; intros U.
  - simpl. set_solver.
  - rewrite eval_in_order_cons. simpl. rewrite IH, Hfn. set_solver.
Qed.

(** The verdict of the call on the record at position [i]. *)
Lemma eval_check_uniques_lookup ds uniques i ex :
  ds !! i = Some ex →
  (eval_in_order check_uniques ds uniques).1 !! i
  = Some (bool_decide (hash ex ∈ uniques ∧ hash ex ∉ hash <$> take i ds)).
Proof. forget_libraries.
  revert uniques i. induction ds as [|ex0 rest IH]; intros U i Hi; [done|].
  rewrite eval_in_order_cons. destruct i as [|i]; simpl in *.
  - simplify_eq. rewrite check_uniques_eq. simpl. f_equal.
    apply bool_decide_ext. set_solver.
  - rewrite (IH _ _ Hi). f_equal. rewrite check_uniques_eq. simpl.
    apply bool_decide_ext. set_solver.
Qed.

(** The number of kept records that carry a given hash. *)
Lemma select_mask_check_uniques_count ds uniques h :
  length (base.filter (λ ex, hash ex = h)
            (select_mask ds (eval_in_order check_uniques ds uniques).1))
  = if bool_decide (h ∈ uniques ∧ h ∈ hash <$> ds) then 1%nat else 0%nat.
Proof. forget_libraries.
  revert uniques. induction ds as [|ex rest IH]; intros U.
  - simpl. rewrite bool_decide_eq_false_2; [done|]. set_solver.
  - rewrite eval_in_order_cons. rewrite check_uniques_eq. cbn [fst snd select_mask].
    case_bool_decide as Hin.
    + rewrite filter_cons. destruct (decide (hash ex = h)) as [Hh|Hh].
      * cbn [length]. rewrite IH. rewrite bool_decide_eq_false_2 by set_solver.
        rewrite bool_decide_eq_true_2; [done|]. set_solver.
      * rewrite IH. apply (f_equal (λ b : bool, if b then 1%nat else 0%nat)).
        apply bool_decide_ext. set_solver.
    + rewrite IH. apply (f_equal (λ b : bool, if b then 1%nat else 0%nat)).
      apply bool_decide_ext. set_solver.
Qed.

Lemma eval_filter_mask ds uniques args :
  (eval_in_order (λ ex uniques, filter ex uniques args) ds uniques).1
  = zip_with andb (eval_in_order check_uniques ds uniques).1
      ((λ ex, quality_ok ex args) <$> ds).
Proof.
  revert uniques. induction ds as [|ex rest IH]; intros U; [done|].
  rewrite !eval_in_order_cons. cbn [fst snd fmap list_fmap zip_with].
  rewrite filter_eq. cbn [fst snd]. by rewrite IH.
Qed.

(** The number of calls of [check_uniques] that return [True]. *)
Lemma eval_check_uniques_count ds (uniques : gset string) :
  length (base.filter (λ b, b = true)
            (eval_in_order check_uniques ds uniques).1)
  = size (uniques ∩ list_to_set (hash <$> ds)).
Proof. forget_libraries.
  revert uniques. induction ds as [|ex rest IH]; intros U.
  - simpl. replace (U ∩ ∅) with (∅ : gset string) by set_solver. done.
  - rewrite eval_in_order_cons, check_uniques_eq. cbn [fst snd].
    rewrite filter_cons. cbn [fmap list_fmap list_to_set].
    case_bool_decide as Hin.
    + rewrite decide_True by done. cbn [length]. rewrite IH.
      replace (U ∩ ({[hash ex]} ∪ list_to_set (hash <$> rest)))
        with ({[hash ex]} ∪ (U ∖ {[hash ex]}) ∩ list_to_set (hash <$> rest))
        by (apply set_eq; intros h; destruct (decide (h = hash ex)); set_solver).
      rewrite (size_union (C := gset string) {[hash ex]}
                 ((U ∖ {[hash ex]}) ∩ list_to_set (hash <$> rest)))
        by set_solver.
      by rewrite size_singleton.
    + rewrite decide_False by done. rewrite IH. f_equal. set_solver.
Qed.

(** ** Claims on exact deduplication *)

(** C1: when the calls of [check_uniques] are made in iteration order on
    the set of the distinct hashes of the corpus, the call on the record at
    position [i] returns [True] exactly when no earlier record has the
    same hash (the record is the first of its group), and [False] for
    every later record of the group; among the records kept, exactly one
    has that hash. *)
Theorem check_uniques_keeps_first_of_group (ds : list example) (i : nat)
    (ex : example) :
  ds !! i = Some ex →
  let uniques : gset string := list_to_set (hash <$> ds) in
  let mask := (eval_in_order check_uniques ds uniques).1 in
  mask !! i = Some (bool_decide (hash ex ∉ hash <$> take i ds))
  ∧ length (base.filter (λ ex', hash ex' = hash ex) (select_mask ds mask)) = 1%nat.
Proof. forget_libraries.
  intros Hi uniques mask.
  assert (hash ex ∈ hash <$> ds) as Hin.
  { apply list_elem_of_fmap. exists ex. split; [done|].
    by apply list_elem_of_lookup_2 with i. }
  split.
  - subst mask. rewrite (eval_check_uniques_lookup _ _ _ _ Hi). f_equal.
    apply bool_decide_ext. subst uniques. set_solver.
  - subst mask. rewrite select_mask_check_uniques_count.
    rewrite bool_decide_eq_true_2; [done|]. subst uniques. set_solver.
Qed.

(** C2: [filter] consumes the hash of every record through
    [check_uniques], whatever the quality checks say; when a record whose
    hash is still in the set fails the check on [alpha_frac] or has no
    line, the record is rejected, its hash is removed, and a later record
    with the same hash is rejected, whatever calls of [filter] were made in
    between. *)
Theorem filter_consumes_hash_of_rejected (ex ex' : example)
    (uniques : gset string) (args : Args.t) (between : list example) :
  hash ex ∈ uniques →
  float_lt (alpha_frac ex) (Args.alpha_frac args) = true ∨ line_len ex = [] →
  hash ex' = hash ex →
  let after := (filter ex uniques args).2 in
  let later :=
    (eval_in_order (λ ex uniques, filter ex uniques args) between after).2 in
  (filter ex uniques args).1 = false
  ∧ after = (check_uniques ex uniques).2
  ∧ after = uniques ∖ {[hash ex]}
  ∧ (filter ex' later args).1 = false.
Proof.
  intros Hin Hq Hh after later. subst later after.
  rewrite (filter_consumes args ex uniques).
  rewrite eval_in_order_consumed by apply filter_consumes.
  rewrite !filter_eq, !check_uniques_eq. cbn [fst snd].
  repeat split.
  - apply andb_false_intro2. unfold quality_ok.
    destruct Hq as [->| ->]; [done|]. by rewrite andb_false_r.
  - apply andb_false_intro1. apply bool_decide_eq_false_2. set_solver.
Qed.

(** C8: a call of [check_uniques] returns [False] and leaves the set as it
    is, or returns [True] and removes the hash of its record, which was in
    the set; [filter] changes the set as its call of [check_uniques] does;
    along a sequence of calls of [filter] the set only decreases. *)
Theorem uniques_only_drained (ex : example) (uniques : gset string)
    (args : Args.t) (ds1 ds2 : list example) :
  (check_uniques ex uniques = (false, uniques) ∧ hash ex ∉ uniques
   ∨ check_uniques ex uniques = (true, uniques ∖ {[hash ex]})
     ∧ hash ex ∈ uniques
     ∧ size (uniques ∖ {[hash ex]}) = (size uniques - 1)%nat)
  ∧ (filter ex uniques args).2 = (check_uniques ex uniques).2
  ∧ (check_uniques ex uniques).2 ⊆ uniques
  ∧ (eval_in_order (λ ex uniques, filter ex uniques args)
       (ds1 ++ ds2) uniques).2
    ⊆ (eval_in_order (λ ex uniques, filter ex uniques args) ds1 uniques).2
  ∧ (eval_in_order (λ ex uniques, filter ex uniques args) ds1 uniques).2
    ⊆ uniques.
Proof.
  repeat split.
  - unfold check_uniques. case_bool_decide as Hin; [right|left]; [|done].
    repeat split; [done|].
    rewrite size_difference by set_solver. by rewrite size_singleton.
  - by rewrite filter_eq.
  - rewrite check_uniques_eq. set_solver.
  - rewrite eval_in_order_app. cbn [snd].
    rewrite (eval_in_order_consumed _ ds2) by apply filter_consumes. set_solver.
  - rewrite eval_in_order_consumed by apply filter_consumes. set_solver.
Qed.

(** C10: after [filter] has been called on every record of the corpus, in
    order, on the set of the distinct hashes of the corpus, the set is
    empty; the verdicts of the calls of [check_uniques] made by [filter]
    are those of [check_uniques] called in the same order, and as many of
    them are [True] as the corpus has distinct hashes. *)
Theorem uniques_drained_after_filter (ds : list example) (args : Args.t) :
  let uniques : gset string := list_to_set (hash <$> ds) in
  let run := eval_in_order (λ ex uniques, filter ex uniques args) ds uniques in
  let checks := eval_in_order check_uniques ds uniques in
  run.2 = ∅
  ∧ (Dataset_filter (λ ex uniques, filter ex uniques args) ds uniques).2 = ∅
  ∧ run.1 = zip_with andb checks.1 ((λ ex, quality_ok ex args) <$> ds)
  ∧ run.2 = checks.2
  ∧ length (base.filter (λ b, b = true) checks.1) = size uniques.
Proof. forget_libraries.
  intros uniques run checks.
  assert (run.2 = ∅) as Hrun.
  { subst run. rewrite eval_in_order_consumed by apply filter_consumes.
    subst uniques. set_solver. }
  repeat split.
  - done.
  - unfold Dataset_filter. fold run. destruct run. done.
  - apply eval_filter_mask.
  - subst run checks. rewrite !eval_in_order_consumed; [done|..].
    + apply check_uniques_consumes.
    + apply filter_consumes.
  - subst checks. rewrite eval_check_uniques_count. f_equal. set_solver.
Qed.

(** ** Claims on the features *)

(** Deleting every match of [\s+] deletes every whitespace character. *)
Lemma re_sub_go_filter (in_match : bool) (s : str) :
  re_sub_go in_match s = base.filter (λ c, isspace c = false) s.
Proof.
  revert in_match. induction s as [|c rest IH]; intros in_match; [done|].
  simpl. rewrite filter_cons. destruct (isspace c) eqn:Hc.
  - rewrite decide_False by done. apply IH.
  - rewrite decide_True by done. by rewrite IH.
Qed.

Lemma re_sub_PATTERN_cons (c : N) (s : str) :
  re_sub_PATTERN (c :: s)
  = if isspace c then re_sub_PATTERN s else c :: re_sub_PATTERN s.
Proof.
  unfold re_sub_PATTERN. simpl. rewrite !re_sub_go_filter.
  by destruct (isspace c).
Qed.

Lemma differ_in_whitespace_re_sub (s t : str) :
  differ_in_whitespace s t → re_sub_PATTERN s = re_sub_PATTERN t.
Proof.
  induction 1 as [|c s t _ IH|c s t Hc _ IH|c s t Hc _ IH].
  - done.
  - rewrite !re_sub_PATTERN_cons, IH. done.
  - by rewrite re_sub_PATTERN_cons, Hc.
  - by rewrite re_sub_PATTERN_cons, Hc.
Qed.

Lemma differ_in_whitespace_refl (s : str) : differ_in_whitespace s s.
Proof. induction s; by constructor. Qed.

Lemma differ_in_whitespace_sym (s t : str) :
  differ_in_whitespace s t → differ_in_whitespace t s.
Proof. induction 1; by constructor. Qed.

(** A text differs only in whitespace from what the substitution leaves of
    it. *)
Lemma differ_in_whitespace_stripped (s : str) :
  differ_in_whitespace s (re_sub_PATTERN s).
Proof.
  induction s as [|c s IH]; [constructor|].
  rewrite re_sub_PATTERN_cons. destruct (isspace c) eqn:Hc; by constructor.
Qed.

(** The relation is exactly the equality of what the substitution leaves. *)
Lemma re_sub_differ_in_whitespace (s t : str) :
  re_sub_PATTERN s = re_sub_PATTERN t → differ_in_whitespace s t.
Proof.
  revert t. induction s as [|c s IHs]; intros t.
  - induction t as [|d t IHt]; intros Heq; [constructor|].
    rewrite re_sub_PATTERN_cons in Heq. destruct (isspace d) eqn:Hd; [|done].
    apply diw_right; auto.
  - rewrite re_sub_PATTERN_cons. destruct (isspace c) eqn:Hc.
    + intros Heq. apply diw_left; auto.
    + induction t as [|d t IHt]; intros Heq; [done|].
      rewrite re_sub_PATTERN_cons in Heq. destruct (isspace d) eqn:Hd.
      * apply diw_right; auto.
      * injection Heq as -> Heq. apply diw_same. auto.
Qed.

Lemma differ_in_whitespace_iff (s t : str) :
  differ_in_whitespace s t ↔ re_sub_PATTERN s = re_sub_PATTERN t.
Proof.
  split; [apply differ_in_whitespace_re_sub|apply re_sub_differ_in_whitespace].
Qed.



(** C3: [get_hash] is a function of the text, and two texts that differ
    only in whitespace have the same digest (or both fail to encode). *)
Theorem get_hash_whitespace_insensitive (s t : str) :
  s = t ∨ differ_in_whitespace s t → get_hash s = get_hash t.
Proof.
  intros [->|Hd]; [done|]. unfold get_hash.
  by rewrite (differ_in_whitespace_re_sub s t Hd).
Qed.

Lemma np_mean_fraction (l : list bool) :
  l ≠ [] →
  ∃ q : Qc,
    np_mean l = Fin q
    ∧ (q * Qc_of_Z (Z.of_nat (length l))
       = Qc_of_Z (Z.of_nat (length (base.filter (λ b, b = true) l))))%Qc
    ∧ (0 ≤ q)%Qc ∧ (q ≤ 1)%Qc.
Proof.
  intros Hne. destruct l as [|b l]; [done|].
  set (l' := b :: l). unfold np_mean. fold l'.
  set (a := length (base.filter (λ b, b = true) l')).
  set (n := length l').
  assert (a ≤ n)%nat as Han by apply length_filter.
  assert (0 < n)%nat as Hn by (subst n l'; simpl; lia).
  assert (0 < Qc_of_Z (Z.of_nat n))%Qc as Hpos.
  { rewrite <- Z2Qc_inj_0. apply (proj1 (Z2Qc_inj_lt _ _)). lia. }
  assert ((Qc_of_Z (Z.of_nat a) / Qc_of_Z (Z.of_nat n)) * Qc_of_Z (Z.of_nat n)
          = Qc_of_Z (Z.of_nat a))%Qc as Hmul.
  { rewrite Qcmult_comm. apply Qcmult_div_r. by apply Qclt_not_eq, not_eq_sym in Hpos. }
  eexists. split; [reflexivity|]. split; [exact Hmul|]. split.
  - apply (Qcmult_le_mono_pos_r _ _ _ Hpos). rewrite Hmul, Qcmult_0_l.
    rewrite <- Z2Qc_inj_0. apply (proj1 (Z2Qc_inj_le _ _)). lia.
  - apply (Qcmult_le_mono_pos_r _ _ _ Hpos). rewrite Hmul, Qcmult_1_l.
    apply (proj1 (Z2Qc_inj_le _ _)). lia.
Qed.

Lemma filter_true_fmap (t : str) :
  length (base.filter (λ b, b = true) (isalnum <$> t))
  = length (base.filter (λ c, isalnum c = true) t).
Proof.
  induction t as [|c t IH]; [done|].
  cbn [fmap list_fmap]. rewrite !filter_cons.
  destruct (isalnum c) eqn:Hc.
  - rewrite !decide_True by done. simpl. by rewrite IH.
  - rewrite !decide_False by done. done.
Qed.

(** The fraction before rounding, for a text that is not empty: it is
    between 0 and 1, the number of alphanumeric characters of the text
    divided by the number of its characters, and 0 when no character of
    the text is alphanumeric. *)
Lemma alpha_stats_fraction (t : str) :
  t ≠ [] →
  ∃ q : Qc,
    alpha_stats t = Fin q
    ∧ (0 ≤ q)%Qc ∧ (q ≤ 1)%Qc
    ∧ (q * Qc_of_Z (Z.of_nat (length t))
       = Qc_of_Z (Z.of_nat (length (base.filter (λ c, isalnum c = true) t))))%Qc
    ∧ ((∀ c, c ∈ t → isalnum c = false) → q = 0%Qc).
Proof.
  intros Hne. unfold alpha_stats.
  destruct (np_mean_fraction (isalnum <$> t)) as (q & Hq & Hmul & H0 & H1).
  { by destruct t. }
  rewrite length_fmap, filter_true_fmap in Hmul.
  exists q. repeat split; try done.
  intros Hall.
  assert (base.filter (λ c, isalnum c = true) t = []) as Hnil.
  { clear -Hall. induction t as [|c t IH]; [done|].
    rewrite filter_cons, decide_False.
    - apply IH. intros c' Hc'. apply Hall. by right.
    - rewrite (Hall c); [done|by left]. }
  rewrite Hnil in Hmul.
  change (Z.of_nat (length (@nil N))) with 0%Z in Hmul.
  rewrite Z2Qc_inj_0 in Hmul.
  apply Qcmult_integral in Hmul as [Hq0|Hlen]; [done|].
  rewrite <- Z2Qc_inj_0 in Hlen. apply Z2Qc_inj in Hlen.
  destruct t; simpl in *; [done|lia].
Qed.

(** ** Claims on the batches *)

Lemma range_items_seq (a n : nat) :
  (λ i : nat, (Z.of_nat a + Z.of_nat i * 1)%Z) <$> seq 0 n
  = Z.of_nat <$> seq a n.
Proof.
  induction n as [|n IH]; [done|].
  rewrite !seq_S, !fmap_app, IH. simpl. do 2 f_equal. lia.
Qed.

Lemma py_range_unit (a b : nat) :
  (a ≤ b)%nat →
  py_range (Z.of_nat a) (Z.of_nat b) 1 = Ok (Z.of_nat <$> seq a (b - a)).
Proof.
  intros Hab. unfold py_range.
  rewrite bool_decide_eq_false_2 by lia.
  rewrite bool_decide_eq_true_2 by lia.
  rewrite <- range_items_seq. do 3 f_equal.
  case_bool_decide; [rewrite Z.div_1_r|]; lia.
Qed.

Lemma mapM_Ok {A B} (f : A → result B) (g : A → B) (l : list A) :
  (∀ x, x ∈ l → f x = Ok (g x)) → mapM f l = Ok (g <$> l).
Proof.
  induction l as [|x l IH]; intros Hf; [done|].
  cbn. rewrite (Hf x) by left. cbn.
  rewrite IH; [done|]. intros y Hy. apply Hf. by right.
Qed.

Lemma Dataset_select_seq (ds : list example) (a n : nat) :
  (a + n ≤ length ds)%nat →
  Dataset_select ds (Z.of_nat <$> seq a n) = Ok (take n (drop a ds)).
Proof.
  revert a. induction n as [|n IH]; intros a Hlen.
  - done.
  - destruct (lookup_lt_is_Some_2 ds a) as [ex Hex]; [lia|].
    unfold Dataset_select in *. cbn.
    rewrite bool_decide_eq_true_2 by lia. rewrite Nat2Z.id, Hex. cbn.
    rewrite IH by lia. cbn.
    by rewrite (drop_S _ _ _ Hex).
Qed.

Lemma shard_rows_slice (ds : list example) (samples_per_file : Z) (a : nat) :
  (0 < samples_per_file)%Z → (a ≤ length ds)%nat →
  shard_rows ds samples_per_file (Z.of_nat a)
  = Ok (take (Z.to_nat samples_per_file) (drop a ds)).
Proof.
  intros Hpos Ha. unfold shard_rows.
  set (s := Z.to_nat samples_per_file).
  replace (Z.of_nat (length ds) `min` (Z.of_nat a + samples_per_file))%Z
    with (Z.of_nat (length ds `min` (a + s))) by lia.
  rewrite py_range_unit by lia. cbn.
  rewrite Dataset_select_seq by lia. f_equal.
  destruct (decide (a + s ≤ length ds)%nat).
  - f_equal. lia.
  - rewrite !take_ge; [done|rewrite length_drop; lia..].
Qed.

Lemma concat_slices {A} (l : list A) (s k : nat) :
  concat ((λ i : nat, take s (drop (i * s) l)) <$> seq 0 k) = take (k * s) l.
Proof.
  induction k as [|k IH]; [done|].
  rewrite seq_S, fmap_app, concat_app, IH. simpl.
  rewrite app_nil_r, take_take_drop. f_equal. lia.
Qed.

Lemma shard_count_ceil (total samples_per_file : Z) :
  (0 ≤ total)%Z → (0 < samples_per_file)%Z →
  shard_count total samples_per_file
  = ((total + samples_per_file - 1) `div` samples_per_file)%Z.
Proof.
  intros Ht Hs. unfold shard_count. case_bool_decide.
  - replace (total + samples_per_file - 1)%Z
      with (total - 0 - 1 + 1 * samples_per_file)%Z by lia.
    rewrite Z.div_add by lia. done.
  - replace total with 0%Z by lia. symmetry. apply Z.div_small. lia.
Qed.

Lemma shard_count_bounds (total samples_per_file : Z) :
  (0 ≤ total)%Z → (0 < samples_per_file)%Z →
  (0 ≤ shard_count total samples_per_file)%Z
  ∧ (total ≤ shard_count total samples_per_file * samples_per_file)%Z
  ∧ ((shard_count total samples_per_file - 1) * samples_per_file < total
     ∨ total = 0 ∧ shard_count total samples_per_file = 0)%Z.
Proof.
  intros Ht Hs. unfold shard_count. case_bool_decide; [|lia].
  pose proof (Z.div_mod (total - 0 - 1) samples_per_file ltac:(lia)) as Hdm.
  pose proof (Z.mod_pos_bound (total - 0 - 1) samples_per_file Hs) as Hm.
  pose proof (Z.div_pos (total - 0 - 1) samples_per_file ltac:(lia) Hs).
  nia.
Qed.

(** The starts of the shards: the items of the range of the loop. *)
Lemma py_range_starts (total : nat) (samples_per_file : Z) :
  (0 < samples_per_file)%Z →
  py_range 0 (Z.of_nat total) samples_per_file
  = Ok ((λ i : nat, (0 + Z.of_nat i * samples_per_file)%Z)
        <$> seq 0 (Z.to_nat (shard_count (Z.of_nat total) samples_per_file))).
Proof.
  intros Hs. unfold py_range.
  rewrite bool_decide_eq_false_2 by lia.
  rewrite bool_decide_eq_true_2 by lia. done.
Qed.

Lemma shard_rows_start (ds : list example) (samples_per_file : Z) (i : nat) :
  (0 < samples_per_file)%Z →
  (i < Z.to_nat (shard_count (Z.of_nat (length ds)) samples_per_file))%nat →
  shard_rows ds samples_per_file (0 + Z.of_nat i * samples_per_file)
  = Ok (take (Z.to_nat samples_per_file)
          (drop (i * Z.to_nat samples_per_file) ds)).
Proof.
  intros Hs Hi.
  destruct (shard_count_bounds (Z.of_nat (length ds)) samples_per_file)
    as (Hk0 & Hkn & Hk); [lia..|].
  replace (0 + Z.of_nat i * samples_per_file)%Z
    with (Z.of_nat (i * Z.to_nat samples_per_file)) by lia.
  apply shard_rows_slice; [done|]. nia.
Qed.

Lemma shards_slices (ds : list example) (samples_per_file : Z) :
  (0 < samples_per_file)%Z →
  shards ds samples_per_file
  = Ok ((λ i : nat, take (Z.to_nat samples_per_file)
                     (drop (i * Z.to_nat samples_per_file) ds))
        <$> seq 0 (Z.to_nat (shard_count (Z.of_nat (length ds))
                               samples_per_file))).
Proof.
  intros Hs. unfold shards. rewrite py_range_starts by done. cbn.
  rewrite (mapM_Ok _ (λ z, take (Z.to_nat samples_per_file)
                            (drop (Z.to_nat z) ds))).
  - f_equal. rewrite <- list_fmap_compose. apply list_fmap_ext.
    intros _ i _. simpl. do 2 f_equal. lia.
  - intros z (i & -> & Hi)%list_elem_of_fmap.
    apply elem_of_seq in Hi. rewrite shard_rows_start by lia.
    do 3 f_equal. lia.
Qed.

(** The groups that the loop selects, for a positive [samples_per_file]:
    consecutive groups of the records, in order, as many as the ceiling of
    [total / samples_per_file], each of them not empty and of at most
    [samples_per_file] records, all but the last of exactly
    [samples_per_file] records, and their concatenation is the sequence of
    the records. *)
Lemma shards_partition (ds_filter : list example) (samples_per_file : Z) :
  (0 < samples_per_file)%Z →
  ∃ groups : list (list example),
    shards ds_filter samples_per_file = Ok groups
    ∧ Z.of_nat (length groups)
      = ((Z.of_nat (length ds_filter) + samples_per_file - 1)
           `div` samples_per_file)%Z
    ∧ concat groups = ds_filter
    ∧ ∀ (i : nat) (g : list example), groups !! i = Some g →
        g = take (Z.to_nat samples_per_file)
              (drop (i * Z.to_nat samples_per_file) ds_filter)
        ∧ (0 < length g)%nat
        ∧ (Z.of_nat (length g) ≤ samples_per_file)%Z
        ∧ ((S i < length groups)%nat →
           Z.of_nat (length g) = samples_per_file).
Proof.
  intros Hs. eexists. split; [by apply shards_slices|].
  destruct (shard_count_bounds (Z.of_nat (length ds_filter)) samples_per_file)
    as (Hk0 & Hkn & Hk); [lia..|].
  rewrite <- shard_count_ceil by lia.
  set (k := shard_count _ _) in *. set (s := Z.to_nat samples_per_file).
  rewrite length_fmap, length_seq. split; [lia|]. split.
  - rewrite concat_slices. apply take_ge. nia.
  - intros i g Hg. rewrite list_lookup_fmap in Hg.
    destruct (seq 0 (Z.to_nat k) !! i) as [j|] eqn:Hj; [|done].
    apply lookup_seq in Hj as [-> Hi]. simpl in Hg. simplify_eq.
    split; [done|]. rewrite length_take, length_drop.
    repeat split; [nia|nia|]. intros Hlt. nia.
Qed.

(** ** Claims on compression and on the whole run *)

Lemma path_gz_ne (file_path : string) : file_path ≠ file_path +:+ ".gz".
Proof.
  intros Heq.
  assert (file_path +:+ "" = file_path +:+ ".gz") as Happ.
  { rewrite <- Heq. clear Heq.
    induction file_path as [|a p IH]; [done|]. unfold String.app in *.
    simpl. by rewrite IH. }
  by apply (inj (String.app file_path)) in Happ.
Qed.

(** C7: when the file to compress exists, either [compress_file] returns
    and the source is gone while the compressed file holds the whole
    compressed content, or it raises an exception, which happens for every
    fault of the environment, and the source is still in place with its
    content. *)
Theorem compress_file_atomic (fault : io_fault) (file_path : string)
    (fs : filesystem) (data : bytes) :
  fs !! file_path = Some data →
  let result := (compress_file fault file_path fs).1 in
  let fs' := (compress_file fault file_path fs).2 in
  (result = Ok () ∧ fault = NoFault
   ∧ fs' !! file_path = None
   ∧ fs' !! (file_path +:+ ".gz") = Some (gzip_compress compresslevel data))
  ∨ (∃ e, result = Raise e) ∧ fault ≠ NoFault
    ∧ fs' !! file_path = Some data.
Proof.
  intros Hsrc. unfold compress_file. rewrite Hsrc.
  pose proof (path_gz_ne file_path) as Hne.
  destruct fault; cbn [fst snd].
  - left. repeat split.
    + apply lookup_delete_eq.
    + rewrite lookup_delete_ne by done. apply lookup_insert_eq.
  - right. repeat split; [by eexists|done|done].
  - right. repeat split; [by eexists|done|done].
  - right. repeat split; [by eexists|done|].
    by rewrite lookup_insert_ne.
  - right. repeat split; [by eexists|done|].
    by rewrite lookup_insert_ne.
Qed.

Lemma save_shard_no_fault (args : Args.t) (data_dir : string)
    (ds_filter : list example) (file_number : nat) (index : Z)
    (fs : filesystem) (rows : list example) :
  shard_rows ds_filter (Args.samples_per_file args) index = Ok rows →
  let file_path :=
    path_join data_dir ("file-" +:+ format_012 (file_number + 1) +:+ ".json") in
  save_shard args data_dir ds_filter NoFault file_number index fs
  = (Ok (),
     delete file_path
       (<[file_path +:+ ".gz" := gzip_compress compresslevel (to_json rows)]>
          (<[file_path := to_json rows]> fs))).
Proof.
  intros Hrows file_path.
  unfold save_shard. rewrite Hrows. fold file_path.
  unfold compress_file. by rewrite lookup_insert_eq.
Qed.

(** Without fault of the environment the loop runs to its end. *)
Lemma save_loop_no_fault (args : Args.t) (data_dir : string)
    (ds_filter : list example) (items : list (nat * Z)) (fs : filesystem) :
  (∀ item, item ∈ items →
     ∃ rows, shard_rows ds_filter (Args.samples_per_file args) item.2 = Ok rows) →
  (save_loop args data_dir ds_filter (λ _, NoFault) items fs).1 = Ok ().
Proof.
  revert fs. induction items as [|[file_number index] items IH]; intros fs Hrows.
  - done.
  - destruct (Hrows (file_number, index)) as [rows Hr]; [by left|].
    cbn [save_loop]. simpl in Hr.
    rewrite (save_shard_no_fault _ _ _ _ _ _ _ Hr).
    apply IH. intros item Hitem. apply Hrows. by right.
Qed.

(** With no record left after the filters, and any step but zero, the loop
    has no iteration: no shard is written. *)
Lemma shards_no_record (samples_per_file : Z) :
  samples_per_file ≠ 0%Z → shards [] samples_per_file = Ok [].
Proof.
  intros Hs. unfold shards, py_range.
  rewrite bool_decide_eq_false_2 by done. simpl.
  by repeat case_bool_decide.
Qed.

(** C9, as the program has it: the shard that the loop writes is compressed
    at level 6, whatever the configuration. *)
Theorem save_shard_level_6 (args : Args.t) (data_dir : string)
    (ds_filter : list example) (file_number : nat) (index : Z)
    (fs : filesystem) (rows : list example) :
  shard_rows ds_filter (Args.samples_per_file args) index = Ok rows →
  let file_path :=
    path_join data_dir ("file-" +:+ format_012 (file_number + 1) +:+ ".json") in
  compresslevel = 6%Z
  ∧ save_shard args data_dir ds_filter NoFault file_number index fs
    = (Ok (),
       delete file_path
         (<[file_path +:+ ".gz" := gzip_compress 6 (to_json rows)]>
            (<[file_path := to_json rows]> fs))).
Proof.
  intros Hrows file_path. split; [done|].
  by apply save_shard_no_fault.
Qed.

(** The run ends normally on a corpus that is not empty, whose texts can
    be encoded, with a positive [samples_per_file] and no fault of the
    environment. *)
Lemma main_no_fault (args : Args.t) (corpus : list str) (ds : list example)
    (fs : filesystem) :
  mapM preprocess corpus = Ok ds → ds ≠ [] →
  (0 < Args.samples_per_file args)%Z →
  (main args corpus (λ _, NoFault) fs).1 = Ok ().
Proof.
  intros Hds Hne Hs. unfold main. rewrite Hds.
  destruct ds as [|ex ds']; [done|]. cbn [length py_truediv].
  destruct (Dataset_filter _ _ _) as [kept uniques].
  destruct (deduplicate_dataset kept _) as [reduced clusters].
  rewrite py_range_starts by done.
  apply save_loop_no_fault.
  intros [file_number index] (n & z & [= -> ->] & Hz)%elem_of_lookup_imap.
  rewrite list_lookup_fmap in Hz.
  destruct (seq _ _ !! n) as [i|] eqn:Hi; [|done].
  apply lookup_seq in Hi as [-> Hi]. simpl in Hz. simplify_eq.
  eexists. by apply shard_rows_start.
Qed.

(** C5 on the program: with no record, the run stops at the fraction of
    duplicates, a division by the number of records, before anything is
    written. *)
Theorem main_empty_corpus (args : Args.t) (faults : nat → io_fault)
    (fs : filesystem) :
  main args [] faults fs = (Raise ZeroDivisionError, fs).
Proof. reflexivity. Qed.

(** ** Further properties of the features *)

Lemma islinebreak_LF (c : N) : c = 0x0A → islinebreak c = true.
Proof. by intros ->. Qed.

Lemma splitlines_go_concat (cur : option str) (s : str) :
  concat (splitlines_go cur s)
  = reverse (default [] cur) ++ base.filter (λ c, islinebreak c = false) s.
Proof.
  revert cur.
  induction (Nat.lt_wf_0_projected length s) as [s _ IH]; intros cur.
  destruct s as [|c rest].
  - destruct cur; simpl; by rewrite ?app_nil_r.
  - cbn [splitlines_go]. rewrite filter_cons.
    destruct (islinebreak c) eqn:Hc.
    + rewrite decide_False by done. cbn [concat]. f_equal.
      destruct rest as [|c' rest']; [done|].
      destruct (bool_decide (c = 0x0D) && bool_decide (c' = 0x0A)) eqn:Hcrlf.
      * apply andb_true_iff in Hcrlf as [_ Hlf%bool_decide_eq_true].
        rewrite filter_cons, decide_False
          by (rewrite (islinebreak_LF _ Hlf); done).
        rewrite IH by (simpl; lia). done.
      * rewrite IH by (simpl; lia). done.
    + rewrite decide_True by done. rewrite IH by (simpl; lia).
      cbn [from_option id]. by rewrite reverse_cons, <- app_assoc.
Qed.

(** X1: the lines of a text, put end to end, are the text without its
    line boundary characters, so the lengths in [line_len] add up to the
    number of characters that are not line boundaries. *)
Theorem line_stats_total (t : str) :
  concat (splitlines t) = base.filter (λ c, islinebreak c = false) t
  ∧ sum_list (line_stats t)
    = length (base.filter (λ c, islinebreak c = false) t).
Proof.
  assert (concat (splitlines t) = base.filter (λ c, islinebreak c = false) t)
    as Hcat by (unfold splitlines; by rewrite splitlines_go_concat).
  split; [done|]. unfold line_stats. rewrite <- Hcat.
  generalize (splitlines t). intros lines.
  induction lines as [|l ls IH]; [done|].
  rewrite fmap_cons. cbn [concat]. rewrite length_app, <- IH. done.
Qed.



Lemma filter_none_length {A} (P : A → Prop) `{!∀ x, Decision (P x)}
    (l : list A) :
  length (base.filter P l) = 0%nat ↔ ∀ x, x ∈ l → ¬ P x.
Proof.
  induction l as [|x l IH].
  - split; [|done]. intros _ y Hy. by apply elem_of_nil in Hy.
  - rewrite filter_cons. destruct (decide (P x)) as [Hx|Hx].
    + split; [done|]. intros Hall. destruct (Hall x); [by left|done].
    + rewrite IH. split.
      * intros Hall y [->|Hy]%elem_of_cons; auto.
      * intros Hall y Hy. apply Hall. by right.
Qed.


(** ** Further properties of the filter *)

Lemma float_lt_mono (f : pyfloat) (x y : Qc) :
  (x ≤ y)%Qc → float_lt f (Fin x) = true → float_lt f (Fin y) = true.
Proof.
  intros Hxy. destruct f as [| |q|]; simpl; try done.
  intros Hq%bool_decide_eq_true. apply bool_decide_eq_true.
  by apply Qclt_le_trans with x.
Qed.

(** X3: with a smaller minimum fraction, [filter] accepts every record that
    it accepts with a larger one, on the same set. *)
Theorem filter_threshold_monotone (ex : example) (uniques : gset string)
    (args1 args2 : Args.t) (x y : Qc) :
  Args.alpha_frac args1 = Fin x → Args.alpha_frac args2 = Fin y →
  (x ≤ y)%Qc →
  (filter ex uniques args2).1 = true →
  (filter ex uniques args1).1 = true
  ∧ (filter ex uniques args1).2 = (filter ex uniques args2).2.
Proof. forget_libraries.
  intros H1 H2 Hxy. rewrite !filter_eq. cbn [fst snd].
  unfold quality_ok. rewrite H1, H2.
  intros [Hc Hq]%andb_true_iff. apply andb_true_iff in Hq as [Ha Hl].
  split; [|done]. rewrite Hc, Hl, andb_true_r. cbn.
  destruct (float_lt (alpha_frac ex) (Fin x)) eqn:Hlt; [|done].
  by rewrite (float_lt_mono _ _ _ Hxy Hlt) in Ha.
Qed.

(** X4: [filter] does not accept twice: called again on the same record, or
    on any record with the same hash, with any configuration, it rejects
    and leaves the set as the first call left it. *)
Theorem filter_repeated_call (ex ex' : example) (uniques : gset string)
    (args args' : Args.t) :
  hash ex' = hash ex →
  filter ex' (filter ex uniques args).2 args'
  = (false, (filter ex uniques args).2).
Proof. forget_libraries.
  intros Hh. rewrite (filter_eq ex'), (filter_consumes args ex uniques).
  rewrite check_uniques_eq, Hh. cbn [fst snd].
  rewrite bool_decide_eq_false_2 by set_solver.
  cbn. f_equal. set_solver.
Qed.

Lemma Dataset_filter_fst fn ds uniques :
  (Dataset_filter fn ds uniques).1
  = select_mask ds (eval_in_order fn ds uniques).1.
Proof. unfold Dataset_filter. by destruct (eval_in_order fn ds uniques). Qed.

Lemma Dataset_filter_snd fn ds uniques :
  (Dataset_filter fn ds uniques).2 = (eval_in_order fn ds uniques).2.
Proof. unfold Dataset_filter. by destruct (eval_in_order fn ds uniques). Qed.

Lemma Dataset_filter_cons args ex rest (uniques : gset string) :
  (Dataset_filter (λ ex uniques, filter ex uniques args)
     (ex :: rest) uniques).1
  = let kept_rest :=
      (Dataset_filter (λ ex uniques, filter ex uniques args) rest
         (uniques ∖ {[hash ex]})).1 in
    if bool_decide (hash ex ∈ uniques) && quality_ok ex args
    then ex :: kept_rest else kept_rest.
Proof. forget_libraries.
  rewrite !Dataset_filter_fst, eval_in_order_cons. cbn [fst snd select_mask].
  rewrite filter_eq, check_uniques_eq. cbn [fst snd]. done.
Qed.

Lemma Dataset_filter_kept_hash args ds (uniques : gset string) ex :
  ex ∈ (Dataset_filter (λ ex uniques, filter ex uniques args) ds uniques).1 →
  hash ex ∈ uniques ∧ quality_ok ex args = true.
Proof. forget_libraries.
  revert uniques. induction ds as [|ex0 rest IH]; intros U.
  - rewrite Dataset_filter_fst. simpl. by intros ?%elem_of_nil.
  - rewrite Dataset_filter_cons. cbn zeta.
    destruct (bool_decide (hash ex0 ∈ U) && quality_ok ex0 args) eqn:Hk.
    + apply andb_true_iff in Hk as [Hin%bool_decide_eq_true Hq].
      intros [->|Hex]%elem_of_cons; [done|].
      apply IH in Hex as [Hex ?]. split; [set_solver|done].
    + intros Hex. apply IH in Hex as [Hex ?]. split; [set_solver|done].
Qed.

(** X5: the records that [ds.filter(filter, ...)] keeps are records of the
    dataset in their order, no two of them have the same hash, and they are
    no more than the set has hashes, whatever set the pass starts with. *)
Theorem Dataset_filter_survivors (ds : list example) (uniques : gset string)
    (args : Args.t) :
  let kept :=
    (Dataset_filter (λ ex uniques, filter ex uniques args) ds uniques).1 in
  sublist kept ds
  ∧ NoDup (hash <$> kept)
  ∧ (length kept ≤ size uniques)%nat
  ∧ (length kept ≤ length ds)%nat.
Proof. forget_libraries.
  cbn zeta. revert uniques. induction ds as [|ex rest IH]; intros U.
  - rewrite Dataset_filter_fst. simpl.
    split; [constructor|]. split; [constructor|]. split; lia.
  - rewrite Dataset_filter_cons. cbn zeta.
    destruct (IH (U ∖ {[hash ex]})) as (Hsub & Hnd & Hsize & Hlen).
    destruct (bool_decide (hash ex ∈ U) && quality_ok ex args) eqn:Hk.
    + apply andb_true_iff in Hk as [Hin%bool_decide_eq_true _].
      split; [|split; [|split]].
      * by constructor.
      * rewrite fmap_cons. apply NoDup_cons_2; [|done].
        intros (ex' & Hh & Hex')%list_elem_of_fmap.
        apply Dataset_filter_kept_hash in Hex' as [Hex' _]. set_solver.
      * rewrite size_difference in Hsize by set_solver.
        rewrite size_singleton in Hsize.
        assert (size U ≠ 0)%nat.
        { intros H0%size_empty_inv. set_solver. }
        cbn [length]. lia.
      * cbn [length]. lia.
    + split; [|split; [|split]].
      * by constructor.
      * done.
      * etrans; [exact Hsize|]. apply subseteq_size. set_solver.
      * cbn [length]. lia.
Qed.

(** X6: every record that [ds.filter(filter, ...)] keeps had its hash in
    the set, has an [alpha_frac] that is not below the minimum, and has at
    least one line. *)
Theorem Dataset_filter_kept_quality (ds : list example)
    (uniques : gset string) (args : Args.t) (ex : example) :
  ex ∈ (Dataset_filter (λ ex uniques, filter ex uniques args) ds uniques).1 →
  hash ex ∈ uniques
  ∧ float_lt (alpha_frac ex) (Args.alpha_frac args) = false
  ∧ line_len ex ≠ [].
Proof. forget_libraries.
  intros [Hin Hq]%Dataset_filter_kept_hash. split; [done|].
  unfold quality_ok in Hq.
  apply andb_true_iff in Hq as [Ha%negb_true_iff Hl%negb_true_iff].
  split; [done|]. by apply bool_decide_eq_false in Hl.
Qed.

(** X7: in a pass of [filter] over a dataset, from any set, the record at
    position [i] is kept exactly when its hash is in the set, no earlier
    record has the same hash, its [alpha_frac] is not below the minimum and
    it has a line. *)
Theorem filter_pass_verdict (ds : list example) (uniques : gset string)
    (args : Args.t) (i : nat) (ex : example) :
  ds !! i = Some ex →
  (eval_in_order (λ ex uniques, filter ex uniques args) ds uniques).1 !! i
  = Some (bool_decide (hash ex ∈ uniques ∧ hash ex ∉ hash <$> take i ds)
          && negb (float_lt (alpha_frac ex) (Args.alpha_frac args))
          && negb (bool_decide (line_len ex = []))).
Proof. forget_libraries.
  intros Hi. rewrite eval_filter_mask, lookup_zip_with.
  rewrite (eval_check_uniques_lookup _ _ _ _ Hi). cbn.
  rewrite list_lookup_fmap, Hi. cbn. unfold quality_ok.
  by rewrite andb_assoc.
Qed.

(** X8: every call of [check_uniques] that returns [True] takes one hash
    out of the set: after a pass from any set, the hashes left and the
    records accepted are as many as the hashes at the start, and the
    accepted records are as many as the hashes of the set that occur in the
    dataset. *)
Theorem check_uniques_conservation (ds : list example) (uniques : gset string) :
  let run := eval_in_order check_uniques ds uniques in
  let accepted := length (base.filter (λ b, b = true) run.1) in
  accepted = size (uniques ∩ list_to_set (hash <$> ds))
  ∧ run.2 = uniques ∖ list_to_set (hash <$> ds)
  ∧ (size run.2 + accepted = size uniques)%nat.
Proof. forget_libraries.
  cbn zeta. rewrite eval_check_uniques_count.
  rewrite eval_in_order_consumed by apply check_uniques_consumes.
  repeat split.
  rewrite <- (size_union (C := gset string)) by set_solver.
  f_equal. apply set_eq. intros h.
  destruct (decide (h ∈ (list_to_set (hash <$> ds) : gset string)));
    set_solver.
Qed.

(** ** Further properties of preprocessing *)

Lemma utf8_encode_char_cases (c : N) :
  not_encodable c ∧ utf8_encode_char c = Raise UnicodeEncodeError
  ∨ ¬ not_encodable c ∧ ∃ b, utf8_encode_char c = Ok b.
Proof.
  unfold utf8_encode_char, not_encodable.
  repeat case_bool_decide; (left; split; [lia|done]) || (right; split; [lia|eauto]).
Qed.

Lemma encode_utf8_cases (s : str) :
  (∃ c, c ∈ s ∧ not_encodable c) ∧ encode_utf8 s = Raise UnicodeEncodeError
  ∨ (∀ c, c ∈ s → ¬ not_encodable c) ∧ ∃ b, encode_utf8 s = Ok b.
Proof.
  induction s as [|c rest IH].
  - right. split; [|by eexists]. by intros c ?%elem_of_nil.
  - cbn [encode_utf8].
    destruct (utf8_encode_char_cases c) as [[Hbad ->]|[Hok [b ->]]]; cbn.
    { left. split; [|done]. exists c. split; [by left|done]. }
    destruct IH as [[(c' & Hc' & Hbad) ->]|[Hall [bs ->]]]; cbn.
    + left. split; [|done]. exists c'. split; [by right|done].
    + right. split; [|by eexists].
      intros c' [->|Hc']%elem_of_cons; auto.
Qed.

Lemma get_hash_cases (t : str) :
  (∃ c, c ∈ t ∧ isspace c = false ∧ not_encodable c)
  ∧ get_hash t = Raise UnicodeEncodeError
  ∨ (∀ c, c ∈ t → isspace c = false → ¬ not_encodable c)
    ∧ ∃ h, get_hash t = Ok h.
Proof.
  unfold get_hash, re_sub_PATTERN. rewrite re_sub_go_filter.
  destruct (encode_utf8_cases (base.filter (λ c, isspace c = false) t))
    as [[(c & Hc & Hbad) ->]|[Hall [b ->]]]; cbn.
  - apply list_elem_of_filter in Hc as [Hsp Hc]. left. split; [|done].
    by exists c.
  - right. split; [|by eexists]. intros c Hc Hsp. apply Hall.
    by apply list_elem_of_filter.
Qed.

(** X9: [get_hash] fails only by [UnicodeEncodeError], and exactly when a
    character of the text that is not whitespace is a surrogate (or is
    beyond the code points); otherwise it returns a digest. *)
Theorem get_hash_error (t : str) (e : exn) :
  (get_hash t = Raise e
   ↔ e = UnicodeEncodeError
     ∧ ∃ c, c ∈ t ∧ isspace c = false ∧ not_encodable c)
  ∧ ((∀ c, c ∈ t → isspace c = false → ¬ not_encodable c) →
     ∃ h, get_hash t = Ok h).
Proof.
  destruct (get_hash_cases t) as [[(c & Hc & Hsp & Hbad) Hr]|[Hall [h Hh]]].
  - rewrite Hr. split.
    + split; [intros [= <-]|intros [-> _]]; [|done].
      split; [done|]. by exists c.
    + intros Hgood. by destruct (Hgood c Hc Hsp).
  - rewrite Hh. split; [|by eexists]. split; [done|].
    intros (_ & c & Hc & Hsp & Hbad). by destruct (Hall c Hc Hsp).
Qed.

Lemma mapM_Ok_Forall2 {A B} (f : A → result B) (l : list A) (k : list B) :
  mapM f l = Ok k ↔ Forall2 (λ x y, f x = Ok y) l k.
Proof.
  revert k. induction l as [|x l IH]; intros k.
  - cbn. split; [intros [= <-]; constructor|by intros ->%Forall2_nil_inv_l].
  - cbn. destruct (f x) as [y|e] eqn:Hx; cbn.
    + destruct (mapM f l) as [ys|e] eqn:Hl; cbn.
      * split.
        -- intros [= <-]. constructor; [done|]. by apply IH.
        -- intros (y' & ys' & Hy & Hys & ->)%Forall2_cons_inv_l.
           apply IH in Hys. unfold mret, result_ret. congruence.
      * split; [done|].
        intros (y' & ys' & Hy & Hys & ->)%Forall2_cons_inv_l.
        by apply IH in Hys.
    + split; [done|].
      intros (y' & ys' & Hy & Hys & ->)%Forall2_cons_inv_l. congruence.
Qed.

Lemma preprocess_Ok (t : str) (ex : example) :
  preprocess t = Ok ex →
  text ex = t ∧ get_hash t = Ok (hash ex)
  ∧ alpha_frac ex = alpha_stats t ∧ line_len ex = line_stats t.
Proof.
  unfold preprocess. destruct (get_hash t) as [h|e]; cbn; [|done].
  by intros [= <-].
Qed.

(** The records of [ds.map(preprocess)], position by position. *)
Lemma map_preprocess_lookup (corpus : list str) (ds : list example) :
  mapM preprocess corpus = Ok ds →
  length ds = length corpus
  ∧ ∀ i t, corpus !! i = Some t →
      ∃ ex, ds !! i = Some ex ∧ preprocess t = Ok ex.
Proof.
  intros Hds%mapM_Ok_Forall2. split.
  - symmetry. by eapply Forall2_length.
  - intros i t Hi.
    destruct (Forall2_lookup_l _ _ _ _ _ Hds Hi) as (ex & Hex & Hp). eauto.
Qed.

(** X10: when the dataset comes from [ds.map(preprocess)], a text that
    differs only in whitespace from an earlier text of the corpus is never
    kept by the pass of [filter], whatever the set and the
    configuration. *)
Theorem whitespace_duplicate_dropped (corpus : list str) (ds : list example)
    (uniques : gset string) (args : Args.t) (i j : nat) (s t : str) :
  mapM preprocess corpus = Ok ds →
  corpus !! i = Some s → corpus !! j = Some t → (i < j)%nat →
  differ_in_whitespace s t →
  (eval_in_order (λ ex uniques, filter ex uniques args) ds uniques).1 !! j
  = Some false.
Proof.
  intros Hds Hi Hj Hij Hd.
  destruct (map_preprocess_lookup _ _ Hds) as [_ Hlook].
  destruct (Hlook i s Hi) as (exi & Hexi & Hpi).
  destruct (Hlook j t Hj) as (exj & Hexj & Hpj).
  apply preprocess_Ok in Hpi as (_ & Hhi & _).
  apply preprocess_Ok in Hpj as (_ & Hhj & _).
  assert (hash exi = hash exj) as Hh.
  { unfold get_hash in Hhi, Hhj.
    rewrite (differ_in_whitespace_re_sub s t Hd) in Hhi. congruence. }
  rewrite eval_filter_mask, lookup_zip_with.
  rewrite (eval_check_uniques_lookup _ _ _ _ Hexj). cbn.
  rewrite list_lookup_fmap, Hexj. cbn. f_equal.
  apply andb_false_intro1, bool_decide_eq_false_2. intros [_ Hnot].
  apply Hnot, list_elem_of_fmap. exists exi. split; [done|].
  apply list_elem_of_lookup. exists i. rewrite lookup_take_lt by done. done.
Qed.


(** X12: the empty text is preprocessed without error; its [alpha_frac] is
    [nan], which no minimum rejects, and it has no line, for which [filter]
    rejects it, whatever the set and the configuration. *)
Theorem preprocess_filter_empty_text (uniques : gset string) (args : Args.t)
    (minimum : pyfloat) :
  ∃ ex, preprocess [] = Ok ex
    ∧ hash ex = md5_hexdigest []
    ∧ alpha_frac ex = NaN
    ∧ float_lt (alpha_frac ex) minimum = false
    ∧ line_len ex = []
    ∧ filter ex uniques args
      = (false, uniques ∖ {[md5_hexdigest []]}).
Proof.
  eexists. split; [reflexivity|]. cbn [hash alpha_frac line_len].
  repeat split. rewrite filter_eq, check_uniques_eq. cbn [fst snd hash].
  unfold quality_ok. cbn [line_len]. by rewrite andb_false_r.
Qed.

(** ** The names of the files *)

Lemma list_ascii_app (a b : string) :
  String.list_ascii_of_string (a +:+ b)
  = String.list_ascii_of_string a ++ String.list_ascii_of_string b.
Proof.
  induction a as [|c a IH]; [done|].
  unfold String.app in *. cbn. by rewrite IH.
Qed.

Lemma list_ascii_inj (a b : string) :
  String.list_ascii_of_string a = String.list_ascii_of_string b → a = b.
Proof.
  intros Heq. rewrite <- (String.string_of_list_ascii_of_string a),
    <- (String.string_of_list_ascii_of_string b). by rewrite Heq.
Qed.

Lemma string_app_inv_tail (a b t : string) : a +:+ t = b +:+ t → a = b.
Proof.
  intros Heq%(f_equal String.list_ascii_of_string). rewrite !list_ascii_app in Heq.
  by apply app_inv_tail, list_ascii_inj in Heq.
Qed.

Lemma list_ascii_zeros (k : nat) :
  String.list_ascii_of_string (String.concat "" (replicate k "0"%string))
  = replicate k "0"%char.
Proof.
  induction k as [|k IH]; [done|].
  cbn [replicate]. destruct k as [|k]; [done|].
  change (String.concat "" ("0"%string :: replicate (S k) "0"%string))
    with ("0" +:+ "" +:+ String.concat "" (replicate (S k) "0"%string)).
  rewrite !list_ascii_app, IH. done.
Qed.

(** The decimal digits of a positive number do not start with a zero. *)
Lemma pretty_N_go_head (x : N) (s : string) :
  0 < x → ∃ a r, pretty_N_go x s = String a r ∧ a ≠ "0"%char.
Proof.
  revert s. induction (N.lt_wf_0 x) as [x _ IH]; intros s Hx.
  rewrite pretty_N_go_step by done.
  destruct (decide (x `div` 10 = 0)) as [Hdiv|Hdiv].
  - rewrite Hdiv, pretty_N_go_0. eexists _, _. split; [done|].
    apply N.div_small_iff in Hdiv; [|done].
    rewrite N.mod_small by done. intros Hzero.
    apply (pretty_N_char_inj x 0) in Hzero; [lia|done|done].
  - apply IH; [by apply N.div_lt|by apply N.neq_0_lt_0].
Qed.

Lemma pretty_nat_head (n : nat) :
  (0 < n)%nat →
  ∃ a r, String.list_ascii_of_string (pretty n) = a :: r ∧ a ≠ "0"%char.
Proof.
  intros Hn. unfold pretty, pretty_nat, pretty, pretty_N.
  rewrite decide_False by lia.
  destruct (pretty_N_go_head (N.of_nat n) "") as (a & r & -> & Ha); [lia|].
  by eexists _, _.
Qed.

Lemma replicate_zeros_inj (k1 k2 : nat) (d1 d2 : list ascii)
    (a1 a2 : ascii) :
  a1 ≠ "0"%char → a2 ≠ "0"%char →
  replicate k1 "0"%char ++ a1 :: d1 = replicate k2 "0"%char ++ a2 :: d2 →
  a1 :: d1 = a2 :: d2.
Proof.
  intros H1 H2. revert k2. induction k1 as [|k1 IH]; intros [|k2]; cbn.
  - done.
  - intros [= -> _]. done.
  - intros [= <- _]. done.
  - intros [= Heq]. by apply IH in Heq.
Qed.

Lemma format_012_inj (n m : nat) :
  (0 < n)%nat → (0 < m)%nat → format_012 n = format_012 m → n = m.
Proof.
  intros Hn Hm Heq%(f_equal String.list_ascii_of_string). unfold format_012 in Heq.
  rewrite !list_ascii_app, !list_ascii_zeros in Heq.
  destruct (pretty_nat_head n Hn) as (a1 & r1 & Hp1 & Ha1).
  destruct (pretty_nat_head m Hm) as (a2 & r2 & Hp2 & Ha2).
  rewrite Hp1, Hp2 in Heq.
  apply replicate_zeros_inj in Heq; [|done..].
  rewrite <- Hp1, <- Hp2 in Heq.
  by apply list_ascii_inj, (inj pretty) in Heq.
Qed.

Lemma shard_path_inj (data_dir : string) (n m : nat) :
  shard_path data_dir n = shard_path data_dir m → n = m.
Proof.
  unfold shard_path, path_join.
  intros Heq. do 3 apply (inj (String.app _)) in Heq.
  apply string_app_inv_tail, format_012_inj in Heq; lia.
Qed.

Lemma shard_path_gz_inj (data_dir : string) (n m : nat) :
  shard_path data_dir n +:+ ".gz" = shard_path data_dir m +:+ ".gz" → n = m.
Proof. intros Heq%string_app_inv_tail. by apply shard_path_inj in Heq. Qed.

Lemma shard_path_ne_gz (data_dir : string) (n m : nat) :
  shard_path data_dir n ≠ shard_path data_dir m +:+ ".gz".
Proof.
  unfold shard_path, path_join.
  intros Heq%(f_equal String.list_ascii_of_string).
  rewrite !list_ascii_app in Heq. rewrite <- !app_assoc in Heq.
  do 3 apply app_inv_head in Heq.
  apply (f_equal reverse) in Heq. rewrite !reverse_app in Heq.
  cbn in Heq. discriminate Heq.
Qed.

Lemma clusters_path_ne_shard (args : Args.t) (n : nat) :
  clusters_path args ≠ shard_path (data_dir_of args) n
  ∧ clusters_path args ≠ shard_path (data_dir_of args) n +:+ ".gz".
Proof.
  unfold clusters_path, shard_path, data_dir_of, path_join.
  split; intros Heq%(f_equal String.list_ascii_of_string);
    rewrite !list_ascii_app in Heq; rewrite <- !app_assoc in Heq;
    apply app_inv_head in Heq; cbn in Heq; discriminate Heq.
Qed.

(** X13: the files of two shards have different names, before and after
    compression, and none is the file of the clusters: no shard is written
    over another file of the run. *)
Theorem shard_files_distinct (args : Args.t) (n m : nat) :
  n ≠ m →
  let data_dir := data_dir_of args in
  shard_path data_dir n ≠ shard_path data_dir m
  ∧ shard_path data_dir n +:+ ".gz" ≠ shard_path data_dir m +:+ ".gz"
  ∧ shard_path data_dir n ≠ shard_path data_dir m +:+ ".gz"
  ∧ shard_path data_dir n ≠ shard_path data_dir n +:+ ".gz"
  ∧ clusters_path args ≠ shard_path data_dir n
  ∧ clusters_path args ≠ shard_path data_dir n +:+ ".gz".
Proof.
  intros Hnm data_dir. repeat split.
  - by intros ?%shard_path_inj.
  - by intros ?%shard_path_gz_inj.
  - apply shard_path_ne_gz.
  - apply shard_path_ne_gz.
  - apply clusters_path_ne_shard.
  - apply clusters_path_ne_shard.
Qed.

(** ** The files after the loop *)

Lemma compress_file_frame (fault : io_fault) (file_path : string)
    (fs : filesystem) (q : string) :
  q ≠ file_path → q ≠ file_path +:+ ".gz" →
  (compress_file fault file_path fs).2 !! q = fs !! q.
Proof.
  intros Hq Hgz. unfold compress_file.
  destruct (fs !! file_path) as [data|]; [|done].
  destruct fault; cbn [snd]; try done.
  - rewrite lookup_delete_ne by done. by rewrite lookup_insert_ne.
  - by rewrite lookup_insert_ne.
  - by rewrite lookup_insert_ne.
Qed.

(** X14: [compress_file] changes no other file than the source and the
    compressed file, whatever the fault; when the source does not exist it
    raises [FileNotFoundError] and changes no file at all. *)
Theorem compress_file_footprint (fault : io_fault) (file_path : string)
    (fs : filesystem) (q : string) :
  q ≠ file_path → q ≠ file_path +:+ ".gz" →
  (compress_file fault file_path fs).2 !! q = fs !! q
  ∧ (fs !! file_path = None →
     compress_file fault file_path fs = (Raise FileNotFoundError, fs)).
Proof.
  intros Hq Hgz. split; [by apply compress_file_frame|].
  intros Hnone. unfold compress_file. by rewrite Hnone.
Qed.


Lemma save_shard_frame (args : Args.t) (data_dir : string)
    (ds_filter : list example) (fault : io_fault) (file_number : nat)
    (index : Z) (fs : filesystem) (q : string) :
  q ≠ shard_path data_dir file_number →
  q ≠ shard_path data_dir file_number +:+ ".gz" →
  (save_shard args data_dir ds_filter fault file_number index fs).2 !! q
  = fs !! q.
Proof.
  intros Hq Hgz. unfold save_shard. fold (shard_path data_dir file_number).
  destruct (shard_rows _ _ _) as [rows|e]; [|done].
  rewrite compress_file_frame by done. by rewrite lookup_insert_ne.
Qed.

Lemma save_loop_frame (args : Args.t) (data_dir : string)
    (ds_filter : list example) (faults : nat → io_fault)
    (items : list (nat * Z)) (fs : filesystem) (q : string) :
  (∀ item, item ∈ items →
     q ≠ shard_path data_dir item.1
     ∧ q ≠ shard_path data_dir item.1 +:+ ".gz") →
  (save_loop args data_dir ds_filter faults items fs).2 !! q = fs !! q.
Proof.
  revert fs. induction items as [|[n index] items IH]; intros fs Hq; [done|].
  cbn [save_loop].
  destruct (Hq (n, index)) as [Hq1 Hq2]; [by left|]. cbn [fst] in Hq1, Hq2.
  pose proof (save_shard_frame args data_dir ds_filter (faults n) n index fs q
                Hq1 Hq2) as Hstep.
  destruct (save_shard _ _ _ _ _ _ _) as [[[]|e] fs1]; cbn [snd] in *.
  - rewrite IH; [done|]. intros item Hitem. apply Hq. by right.
  - done.
Qed.


(** The loop over shards without fault: every shard is compressed and its
    source removed. *)
Lemma save_loop_done (args : Args.t) (data_dir : string)
    (ds_filter : list example) (faults : nat → io_fault)
    (items : list (nat * Z)) (fs : filesystem) :
  NoDup items.*1 →
  (∀ item, item ∈ items →
     faults item.1 = NoFault
     ∧ ∃ rows, shard_rows ds_filter (Args.samples_per_file args) item.2
               = Ok rows) →
  let run := save_loop args data_dir ds_filter faults items fs in
  run.1 = Ok ()
  ∧ ∀ n index rows, (n, index) ∈ items →
      shard_rows ds_filter (Args.samples_per_file args) index = Ok rows →
      run.2 !! shard_path data_dir n = None
      ∧ run.2 !! (shard_path data_dir n +:+ ".gz")
        = Some (gzip_compress compresslevel (to_json rows)).
Proof.
  cbn zeta. revert fs.
  induction items as [|[n index] items IH]; intros fs Hnd Hitems.
  - split; [done|]. by intros n index rows ?%elem_of_nil.
  - rewrite fmap_cons in Hnd.
    pose proof (NoDup_cons_1_1 _ _ Hnd) as Hn.
    apply NoDup_cons_1_2 in Hnd. cbn [fst] in Hn.
    destruct (Hitems (n, index)) as [Hfault [rows Hrows]]; [by left|].
    cbn [fst snd] in Hfault, Hrows. cbn [save_loop]. rewrite Hfault.
    rewrite (save_shard_no_fault _ _ _ _ _ _ _ Hrows). cbn zeta.
    fold (shard_path data_dir n).
    set (fs1 := delete _ _).
    destruct (IH fs1 Hnd) as [Hok Hfiles].
    { intros item Hitem. apply Hitems. by right. }
    split; [done|].
    intros m index' rows' [[= -> ->]|Hm]%elem_of_cons Hrows'.
    + assert (rows' = rows) as -> by congruence.
      assert (∀ item, item ∈ items → item.1 ≠ n) as Hother.
      { intros item Hitem Heq. apply Hn, list_elem_of_fmap. by exists item. }
      rewrite !save_loop_frame.
      * subst fs1. rewrite lookup_delete_eq.
        rewrite lookup_delete_ne by apply shard_path_ne_gz.
        by rewrite lookup_insert_eq.
      * intros item Hitem. split.
        -- intros Heq. symmetry in Heq. by apply shard_path_ne_gz in Heq.
        -- intros Heq%shard_path_gz_inj. by apply (Hother item).
      * intros item Hitem. split.
        -- intros Heq%shard_path_inj. by apply (Hother item).
        -- apply shard_path_ne_gz.
    + exact (Hfiles m index' rows' Hm Hrows').
Qed.


Lemma enumerate_fst {A} (l : list A) : (enumerate l).*1 = seq 0 (length l).
Proof.
  apply list_eq. intros i. unfold enumerate.
  rewrite list_lookup_fmap, list_lookup_imap.
  destruct (l !! i) as [x|] eqn:Hi; cbn.
  - symmetry. apply lookup_seq. split; [done|]. by apply lookup_lt_Some in Hi.
  - symmetry. apply lookup_seq_ge. by apply lookup_ge_None in Hi.
Qed.

Lemma enumerate_elem_of {A} (l : list A) (item : nat * A) :
  item ∈ enumerate l ↔ l !! item.1 = Some item.2.
Proof.
  unfold enumerate. rewrite elem_of_lookup_imap. split.
  - by intros (i & x & -> & Hi).
  - intros Hi. exists item.1, item.2. by destruct item.
Qed.

(** The shards and the items of the loop, position by position. *)
Lemma shards_items (ds_filter : list example) (samples_per_file : Z)
    (groups : list (list example)) :
  shards ds_filter samples_per_file = Ok groups →
  ∃ starts,
    py_range 0 (Z.of_nat (length ds_filter)) samples_per_file = Ok starts
    ∧ length starts = length groups
    ∧ (∀ i index, starts !! i = Some index →
         ∃ g, groups !! i = Some g
              ∧ shard_rows ds_filter samples_per_file index = Ok g)
    ∧ (∀ i g, groups !! i = Some g →
         ∃ index, starts !! i = Some index
                  ∧ shard_rows ds_filter samples_per_file index = Ok g).
Proof.
  unfold shards. destruct (py_range _ _ _) as [starts|e]; [|done]. cbn.
  intros Hmap%mapM_Ok_Forall2. exists starts. split; [done|]. split.
  { by eapply Forall2_length. }
  split.
  - intros i index Hi.
    destruct (Forall2_lookup_l _ _ _ _ _ Hmap Hi) as (g & Hg & Hr). eauto.
  - intros i g Hg.
    destruct (Forall2_lookup_r _ _ _ _ _ Hmap Hg) as (index & Hi & Hr). eauto.
Qed.


Lemma main_after_clusters (args : Args.t) (corpus : list str)
    (ds : list example) (faults : nat → io_fault) (fs : filesystem) :
  mapM preprocess corpus = Ok ds → ds ≠ [] →
  main args corpus faults fs
  = let fs1 :=
      <[clusters_path args := json_dump (reduced_dataset args ds).2]> fs in
    match py_range 0 (Z.of_nat (length (reduced_dataset args ds).1))
            (Args.samples_per_file args) with
    | Raise e => (Raise e, fs1)
    | Ok starts =>
        save_loop args (data_dir_of args) (reduced_dataset args ds).1 faults
          (enumerate starts) fs1
    end.
Proof.
  intros Hds Hne. unfold main. rewrite Hds.
  destruct ds as [|ex ds']; [done|]. cbn [length py_truediv].
  unfold reduced_dataset, filtered_dataset.
  destruct (Dataset_filter _ _ _) as [kept uniques]. cbn [fst].
  by destruct (deduplicate_dataset kept _) as [reduced clusters].
Qed.

Lemma enumerate_NoDup {A} (l : list A) : NoDup (enumerate l).*1.
Proof. rewrite enumerate_fst. apply NoDup_seq. Qed.





Lemma mapM_Raise {A B} (f : A → result B) (l : list A) (e0 : exn) :
  (∀ x e, f x = Raise e → e = e0) →
  (∃ x e, x ∈ l ∧ f x = Raise e) →
  mapM f l = Raise e0.
Proof.
  intros Hexn. induction l as [|x l IH].
  - by intros (x & e & ?%elem_of_nil & _).
  - intros (y & e & Hy & Hfy). cbn.
    destruct (f x) as [b|e'] eqn:Hx; cbn.
    + rewrite IH; [done|].
      apply elem_of_cons in Hy as [->|Hy]; [congruence|eauto].
    + by rewrite (Hexn x e' Hx).
Qed.

(** X19: when a text of the corpus has a character that is not whitespace
    and cannot be encoded, the script raises [UnicodeEncodeError] and
    writes no file. *)
Theorem main_text_not_encodable (args : Args.t) (corpus : list str)
    (faults : nat → io_fault) (fs : filesystem) (t : str) (c : N) :
  t ∈ corpus → c ∈ t → isspace c = false → not_encodable c →
  main args corpus faults fs = (Raise UnicodeEncodeError, fs).
Proof.
  intros Ht Hc Hsp Hbad. unfold main.
  rewrite (mapM_Raise preprocess corpus UnicodeEncodeError); [done|..].
  - intros x e. unfold preprocess.
    destruct (get_hash_cases x) as [[_ ->]|[_ [h ->]]]; cbn; [|done].
    by intros [= <-].
  - exists t, UnicodeEncodeError. split; [done|]. unfold preprocess.
    destruct (get_hash_cases t) as [[_ ->]|[Hall _]]; [done|].
    by destruct (Hall c Hc Hsp).
Qed.

(** ** The encoding is one to one *)

Lemma lor_mask (m x k : N) :
  m `mod` 2 ^ k = 0 → x < 2 ^ k → N.lor m x = m + x.
Proof.
  intros Hm Hx.
  assert (N.land m x = 0) as Hland.
  { apply N.bits_inj. intros n. rewrite N.land_spec, N.bits_0.
    destruct (decide (n < k)) as [Hn|Hn].
    - rewrite <- (N.mod_pow2_bits_low m k n Hn), Hm, N.bits_0. done.
    - rewrite <- (N.mod_small x (2 ^ k) Hx).
      rewrite N.mod_pow2_bits_high by lia. apply andb_false_r. }
  rewrite <- N.lxor_lor by done. symmetry. by apply N.add_nocarry_lxor.
Qed.

Lemma land_3F (c : N) : N.land c 0x3F = c `mod` 64.
Proof. change 0x3F with (N.ones 6). by rewrite N.land_ones. Qed.

Lemma shiftr_div (c k : N) : N.shiftr c k = c `div` 2 ^ k.
Proof. apply N.shiftr_div_pow2. Qed.

(** The bytes of one character, by division. *)
Lemma utf8_encode_char_div (c : N) (b : bytes) :
  utf8_encode_char c = Ok b →
  c < 0x80 ∧ b = [c]
  ∨ 0x80 ≤ c < 0x800 ∧ b = [0xC0 + c `div` 64; 0x80 + c `mod` 64]
  ∨ 0x800 ≤ c < 0x10000
    ∧ b = [0xE0 + c `div` 4096; 0x80 + (c `div` 64) `mod` 64;
           0x80 + c `mod` 64]
  ∨ 0x10000 ≤ c < 0x110000
    ∧ b = [0xF0 + c `div` 262144; 0x80 + (c `div` 4096) `mod` 64;
           0x80 + (c `div` 64) `mod` 64; 0x80 + c `mod` 64].
Proof.
  unfold utf8_encode_char. rewrite !land_3F, !shiftr_div.
  change (2 ^ 6) with 64. change (2 ^ 12) with 4096.
  change (2 ^ 18) with 262144.
  assert (∀ x, x `mod` 64 < 2 ^ 6) as Hmod by (intros x; by apply N.mod_lt).
  repeat case_bool_decide; intros [= <-].
  - left. split; [lia|done].
  - right; left. split; [lia|].
    rewrite (lor_mask 0xC0 _ 5), (lor_mask 0x80 _ 6); [done|done|apply Hmod|done|].
    change (2 ^ 5) with 32. apply N.Div0.div_lt_upper_bound. lia.
  - right; right; left. split; [lia|].
    rewrite (lor_mask 0xE0 _ 4), !(lor_mask 0x80 _ 6);
      [done|done|apply Hmod|done|apply Hmod|done|].
    change (2 ^ 4) with 16. apply N.Div0.div_lt_upper_bound. lia.
  - right; right; right. split; [lia|].
    rewrite (lor_mask 0xF0 _ 3), !(lor_mask 0x80 _ 6);
      [done|done|apply Hmod|done|apply Hmod|done|apply Hmod|done|].
    change (2 ^ 3) with 8. apply N.Div0.div_lt_upper_bound. lia.
Qed.

Local Ltac euclid c d :=
  let q := fresh "q" in let r := fresh "r" in
  pose proof (N.div_mod c d ltac:(done));
  pose proof (N.mod_lt c d ltac:(done));
  set (q := c `div` d) in *; set (r := c `mod` d) in *;
  clearbody q r.

(** No encoding of a character starts another one, and two characters with
    the same encoding are equal. *)
Lemma utf8_encode_char_prefix_free (c1 c2 : N) (b1 b2 r1 r2 : bytes) :
  utf8_encode_char c1 = Ok b1 → utf8_encode_char c2 = Ok b2 →
  b1 ++ r1 = b2 ++ r2 → c1 = c2 ∧ r1 = r2.
Proof.
  intros H1%utf8_encode_char_div H2%utf8_encode_char_div.
  euclid c1 64. euclid c2 64. euclid c1 4096. euclid c2 4096.
  euclid c1 262144. euclid c2 262144.
  euclid q 64. euclid q0 64. euclid q1 64. euclid q2 64.
  destruct H1 as [[? ->]|[[? ->]|[[? ->]|[? ->]]]];
    destruct H2 as [[? ->]|[[? ->]|[[? ->]|[? ->]]]];
    cbn; intros Heq; simplify_eq; try (split; [lia|done]); lia.
Qed.

Lemma encode_utf8_inj (s t : str) (b : bytes) :
  encode_utf8 s = Ok b → encode_utf8 t = Ok b → s = t.
Proof. forget_libraries.
  revert t b. induction s as [|c1 s IH]; intros [|c2 t] b; cbn.
  - done.
  - intros [= <-]. destruct (utf8_encode_char c2) as [b2|] eqn:H2; [|done].
    cbn. destruct (encode_utf8 t); [|done]. cbn. intros [= Hnil].
    apply app_eq_nil in Hnil as [-> _].
    apply utf8_encode_char_div in H2. naive_solver.
  - destruct (utf8_encode_char c1) as [b1|] eqn:H1; [|done].
    cbn. destruct (encode_utf8 s); [|done]. cbn. intros [= <-] [= Hnil].
    symmetry in Hnil. apply app_eq_nil in Hnil as [-> _].
    apply utf8_encode_char_div in H1. naive_solver.
  - destruct (utf8_encode_char c1) as [b1|] eqn:H1; [|done].
    destruct (utf8_encode_char c2) as [b2|] eqn:H2; [|done]. cbn.
    destruct (encode_utf8 s) as [bs|] eqn:Hs; [|done].
    destruct (encode_utf8 t) as [bt|] eqn:Ht; [|done]. cbn.
    intros [= <-] [= Heq]. symmetry in Heq.
    destruct (utf8_encode_char_prefix_free _ _ _ _ _ _ H1 H2 Heq) as [-> ->].
    f_equal. by apply (IH t bt).
Qed.

(** X20: two texts with the same digest differ only in whitespace, unless
    their encodings, which then are different, have the same MD5: exact
    deduplication merges nothing else. *)
Theorem get_hash_equal (s t : str) (h : string) :
  get_hash s = Ok h → get_hash t = Ok h →
  differ_in_whitespace s t
  ∨ ∃ b1 b2, b1 ≠ b2
      ∧ encode_utf8 (re_sub_PATTERN s) = Ok b1
      ∧ encode_utf8 (re_sub_PATTERN t) = Ok b2
      ∧ md5_hexdigest b1 = md5_hexdigest b2.
Proof.
  unfold get_hash.
  destruct (encode_utf8 (re_sub_PATTERN s)) as [b1|] eqn:H1; [|done].
  destruct (encode_utf8 (re_sub_PATTERN t)) as [b2|] eqn:H2; [|done].
  cbn. intros [= <-] [= Hh].
  destruct (decide (b1 = b2)) as [->|Hne].
  - left. apply re_sub_differ_in_whitespace. by eapply encode_utf8_inj.
  - right. by exists b1, b2.
Qed.

(** ** Groups of records with one hash *)

Lemma elem_of_select_mask (ds : list example) (mask : list bool)
    (ex : example) :
  ex ∈ select_mask ds mask
  ↔ ∃ j, ds !! j = Some ex ∧ mask !! j = Some true.
Proof. forget_libraries.
  revert mask. induction ds as [|ex0 ds IH]; intros mask.
  - split; [by intros ?%elem_of_nil|]. by intros (j & ? & _).
  - destruct mask as [|b mask].
    { split; [by intros ?%elem_of_nil|]. by intros (j & _ & ?). }
    cbn [select_mask]. destruct b.
    + rewrite elem_of_cons, IH. split.
      * intros [->|(j & Hj & Hm)]; [by exists 0%nat|by exists (S j)].
      * intros ([|j] & Hj & Hm); cbn in *; [left; congruence|right; eauto].
    + rewrite IH. split.
      * intros (j & Hj & Hm). by exists (S j).
      * intros ([|j] & Hj & Hm); cbn in *; [done|eauto].
Qed.

Lemma first_occurrence_unique (ds : list example) (i j : nat)
    (ex ex' : example) :
  ds !! i = Some ex → ds !! j = Some ex' → hash ex' = hash ex →
  hash ex ∉ hash <$> take i ds → hash ex' ∉ hash <$> take j ds → i = j.
Proof. forget_libraries.
  intros Hi Hj Hh Hfi Hfj.
  destruct (Nat.lt_trichotomy i j) as [Hlt|[->|Hlt]]; [|done|].
  - destruct Hfj. apply list_elem_of_fmap. exists ex. split; [done|].
    apply list_elem_of_lookup. exists i. by rewrite lookup_take_lt.
  - destruct Hfi. apply list_elem_of_fmap. exists ex'. split; [done|].
    apply list_elem_of_lookup. exists j. by rewrite lookup_take_lt.
Qed.

(** X21: in the pass over a dataset on the set of its hashes, a hash is the
    hash of a kept record exactly when the first record with that hash
    passes the checks on [alpha_frac] and on the lines: a group whose
    first record fails them leaves no record. *)
Theorem group_kept_iff_first_passes (ds : list example) (args : Args.t)
    (i : nat) (ex : example) :
  ds !! i = Some ex → hash ex ∉ hash <$> take i ds →
  (hash ex ∈ hash <$> filtered_dataset args ds
   ↔ float_lt (alpha_frac ex) (Args.alpha_frac args) = false
     ∧ line_len ex ≠ [])
  ∧ (ex ∈ filtered_dataset args ds
     ↔ float_lt (alpha_frac ex) (Args.alpha_frac args) = false
       ∧ line_len ex ≠ []).
Proof. forget_libraries.
  intros Hi Hfirst. unfold filtered_dataset. rewrite Dataset_filter_fst.
  set (uniques := (list_to_set (hash <$> ds) : gset string)).
  assert (∀ j ex', ds !! j = Some ex' →
            (eval_in_order (λ ex uniques, filter ex uniques args) ds uniques).1
              !! j = Some true
            ↔ (hash ex' ∉ hash <$> take j ds)
              ∧ float_lt (alpha_frac ex') (Args.alpha_frac args) = false
              ∧ line_len ex' ≠ []) as Hverdict.
  { intros j ex' Hj. rewrite eval_filter_mask, lookup_zip_with.
    rewrite (eval_check_uniques_lookup _ _ _ _ Hj). cbn.
    rewrite list_lookup_fmap, Hj. cbn. unfold quality_ok.
    assert (hash ex' ∈ uniques) as Hin.
    { subst uniques. apply elem_of_list_to_set, list_elem_of_fmap.
      exists ex'. split; [done|]. by eapply list_elem_of_lookup_2. }
    split.
    - intros [= Hb]. apply andb_true_iff in Hb as [Hc Hq].
      apply bool_decide_eq_true in Hc as [_ Hc].
      apply andb_true_iff in Hq as [Ha%negb_true_iff Hl%negb_true_iff].
      by apply bool_decide_eq_false in Hl.
    - intros (Hc & Ha & Hl). f_equal.
      rewrite bool_decide_eq_true_2 by done. rewrite Ha.
      by rewrite bool_decide_eq_false_2. }
  assert (ex ∈ select_mask ds
            (eval_in_order (λ ex uniques, filter ex uniques args) ds uniques).1
          ↔ float_lt (alpha_frac ex) (Args.alpha_frac args) = false
            ∧ line_len ex ≠ []) as Hex.
  { rewrite elem_of_select_mask. split.
    - intros (j & Hj & Hm). apply (Hverdict j ex Hj) in Hm. tauto.
    - intros Hq. exists i. split; [done|]. apply (Hverdict i ex Hi). tauto. }
  split; [|done]. split.
  - intros (ex' & Hh & Hex')%list_elem_of_fmap.
    apply elem_of_select_mask in Hex' as (j & Hj & Hm).
    apply (Hverdict j ex' Hj) in Hm as (Hfj & Hq).
    assert (i = j) as <- by by eapply first_occurrence_unique.
    by simplify_eq.
  - intros Hq. apply list_elem_of_fmap. exists ex. split; [done|].
    by apply Hex.
Qed.


(** ** The double of [alpha_stats] *)

Lemma round_half_even_bounds (a b : Z) :
  (0 ≤ a)%Z → (0 < b)%Z →
  (a `div` b ≤ round_half_even a b ≤ a `div` b + 1)%Z
  ∧ (a `mod` b = 0 → round_half_even a b = a `div` b)%Z.
Proof.
  intros Ha Hb. unfold round_half_even.
  pose proof (Z.mod_pos_bound a b Hb).
  repeat case_bool_decide; try destruct (Z.even (a `div` b)); split; lia.
Qed.

Lemma round_half_even_le (a b k : Z) :
  (0 ≤ a)%Z → (0 < b)%Z → (a ≤ k * b)%Z → (round_half_even a b ≤ k)%Z.
Proof.
  intros Ha Hb Hk.
  destruct (round_half_even_bounds a b Ha Hb) as [[_ Hup] Hex].
  pose proof (Z.div_mod a b ltac:(lia)) as Hdm.
  pose proof (Z.mod_pos_bound a b Hb) as Hm.
  assert (a `div` b ≤ k)%Z as Hq by (apply Z.div_le_upper_bound; lia).
  destruct (decide (a `div` b = k)%Z) as [Heq|Hne]; [|lia].
  rewrite Hex; [lia|]. nia.
Qed.

Lemma round_half_even_exact (a b k : Z) :
  (0 < b)%Z → (0 ≤ k)%Z → a = (k * b)%Z → round_half_even a b = k.
Proof.
  intros Hb Hk ->.
  destruct (round_half_even_bounds (k * b) b ltac:(nia) Hb) as [_ Hex].
  rewrite Hex; [by apply Z.div_mul; lia|]. apply Z.mod_mul. lia.
Qed.

Lemma floor_log2_le_0 (a b : Z) : (0 < a ≤ b)%Z → (floor_log2 a b ≤ 0)%Z.
Proof.
  intros Hab. unfold floor_log2.
  pose proof (Z.log2_le_mono a b ltac:(lia)).
  repeat case_bool_decide; lia.
Qed.

Lemma floor_log2_nat (k : Z) : (0 < k)%Z → floor_log2 k 1 = Z.log2 k.
Proof.
  intros Hk. unfold floor_log2. change (Z.log2 1) with 0%Z.
  pose proof (Z.log2_nonneg k). pose proof (Z.log2_spec k Hk).
  rewrite Z.sub_0_r. rewrite bool_decide_eq_true_2 by lia.
  rewrite bool_decide_eq_true_2 by lia. done.
Qed.

Lemma Qc_div_unit (m d : Z) :
  (0 ≤ m ≤ d)%Z → (0 < d)%Z →
  (0 ≤ Qc_of_Z m / Qc_of_Z d)%Qc ∧ (Qc_of_Z m / Qc_of_Z d ≤ 1)%Qc.
Proof.
  intros Hm Hd.
  assert (0 < Qc_of_Z d)%Qc as Hpos.
  { rewrite <- Z2Qc_inj_0. apply (proj1 (Z2Qc_inj_lt _ _)). lia. }
  assert ((Qc_of_Z m / Qc_of_Z d) * Qc_of_Z d = Qc_of_Z m)%Qc as Hmul.
  { rewrite Qcmult_comm. apply Qcmult_div_r.
    by apply Qclt_not_eq, not_eq_sym in Hpos. }
  split.
  - apply (Qcmult_le_mono_pos_r _ _ _ Hpos). rewrite Hmul, Qcmult_0_l.
    rewrite <- Z2Qc_inj_0. apply (proj1 (Z2Qc_inj_le _ _)). lia.
  - apply (Qcmult_le_mono_pos_r _ _ _ Hpos). rewrite Hmul, Qcmult_1_l.
    apply (proj1 (Z2Qc_inj_le _ _)). lia.
Qed.

Lemma Qc_num_den_unit (x : Qc) :
  (0 ≤ x)%Qc → (x ≤ 1)%Qc → (0 ≤ Qnum x ≤ Z.pos (Qden x))%Z.
Proof.
  destruct x as [[a b] Hc]. unfold Qcle, Qle. cbn.
  change (Qred 0) with 0%Q. change (Qred 1) with 1%Q. cbn. lia.
Qed.

(** The double nearest to a fraction of [0, 1] is in [0, 1]. *)
Lemma binary64_unit (x : Qc) :
  (0 ≤ x)%Qc → (x ≤ 1)%Qc →
  ∃ q : Qc, binary64 x = Fin q ∧ (0 ≤ q)%Qc ∧ (q ≤ 1)%Qc.
Proof.
  intros H0 H1. pose proof (Qc_num_den_unit x H0 H1) as Hab.
  unfold binary64. set (a := Qnum x) in *. set (b := Z.pos (Qden x)) in *.
  case_bool_decide as Ha.
  { exists 0%Qc. split; [done|]. split; [done|]. by apply Qclt_le_weak. }
  rewrite Z.abs_eq by lia. unfold binary64_digits.
  pose proof (floor_log2_le_0 a b ltac:(lia)) as Hfl.
  set (e := Z.max (floor_log2 a b - 52) (-1074)).
  assert (e < 0)%Z as He by lia.
  rewrite (bool_decide_eq_false_2 (0 ≤ e)%Z) by lia.
  rewrite bool_decide_eq_false_2 by lia.
  rewrite bool_decide_eq_true_2 by lia.
  eexists. split; [done|]. unfold binary64_value.
  rewrite bool_decide_eq_false_2 by lia.
  assert (0 < 2 ^ (- e))%Z as Hp by (apply Z.pow_pos_nonneg; lia).
  apply Qc_div_unit; [|done]. split.
  - destruct (round_half_even_bounds (a * 2 ^ (- e)) b ltac:(nia) ltac:(lia))
      as [[Hlo _] _].
    etrans; [|exact Hlo]. apply Z.div_pos; [nia|lia].
  - apply round_half_even_le; [nia|lia|nia].
Qed.

Lemma binary64_0 : binary64 (Qc_of_Z 0) = Fin (Qc_of_Z 0).
Proof. by rewrite Z2Qc_inj_0. Qed.

(** The integers up to 2^53 are doubles. *)
Lemma binary64_nat_exact (k : Z) :
  (0 ≤ k ≤ 2 ^ 53)%Z → binary64 (Qc_of_Z k) = Fin (Qc_of_Z k).
Proof.
  intros Hk.
  destruct (decide (k = 0)%Z) as [->|Hk0]; [apply binary64_0|].
  destruct (decide (k = 2 ^ 53)%Z) as [->|Hk53].
  { vm_compute. reflexivity. }
  unfold binary64. change (Qnum (Qc_of_Z k)) with k.
  change (Z.pos (Qden (Qc_of_Z k))) with 1%Z.
  rewrite bool_decide_eq_false_2 by done.
  rewrite Z.abs_eq by lia. unfold binary64_digits.
  rewrite floor_log2_nat by lia.
  assert (Z.log2 k < 53)%Z as Hlog by (apply Z.log2_lt_pow2; lia).
  assert (2 ^ 53 < 2 ^ 1024)%Z as Hbig by (apply Z.pow_lt_mono_r; lia).
  pose proof (Z.log2_nonneg k) as Hnn.
  set (e := Z.max (Z.log2 k - 52) (-1074)).
  assert (e ≤ 0)%Z as He by lia.
  destruct (decide (e = 0)%Z) as [He0|He0].
  - rewrite He0. change (2 ^ 0)%Z with 1%Z.
    rewrite (bool_decide_eq_true_2 (0 ≤ 0)%Z) by lia.
    rewrite (round_half_even_exact k (1 * 1) k) by lia.
    rewrite bool_decide_eq_false_2 by lia.
    rewrite bool_decide_eq_true_2 by lia.
    unfold binary64_value. rewrite bool_decide_eq_true_2 by lia.
    do 2 f_equal. lia.
  - assert (0 < 2 ^ (- e))%Z as Hp by (apply Z.pow_pos_nonneg; lia).
    rewrite (bool_decide_eq_false_2 (0 ≤ e)%Z) by lia.
    rewrite (round_half_even_exact _ 1 (k * 2 ^ (- e))) by nia.
    rewrite bool_decide_eq_false_2 by lia.
    rewrite bool_decide_eq_true_2 by lia.
    unfold binary64_value. rewrite bool_decide_eq_false_2 by lia.
    f_equal. rewrite Z2Qc_inj_mul. apply Qcdiv_mult_l.
    rewrite <- Z2Qc_inj_0. intros Heq%Z2Qc_inj. lia.
Qed.

(** An integer from 2^53 on becomes a double that is not smaller than
    2^53, or overflows. *)
Lemma binary64_nat_large (k : Z) :
  (2 ^ 53 ≤ k)%Z →
  binary64 (Qc_of_Z k) = PosInf
  ∨ ∃ y : Qc, binary64 (Qc_of_Z k) = Fin y ∧ (Qc_of_Z (2 ^ 53) ≤ y)%Qc.
Proof.
  intros Hk. unfold binary64. change (Qnum (Qc_of_Z k)) with k.
  change (Z.pos (Qden (Qc_of_Z k))) with 1%Z.
  rewrite bool_decide_eq_false_2 by lia.
  rewrite Z.abs_eq by lia. unfold binary64_digits.
  rewrite floor_log2_nat by lia.
  assert (53 ≤ Z.log2 k)%Z as Hlog.
  { change 53%Z with (Z.log2 (2 ^ 53)). by apply Z.log2_le_mono. }
  pose proof (Z.log2_spec k ltac:(lia)) as [Hlo _].
  set (e := Z.max (Z.log2 k - 52) (-1074)).
  assert (e = Z.log2 k - 52)%Z as He by lia.
  assert (2 ^ Z.log2 k = 2 ^ 52 * 2 ^ e)%Z as Hpow.
  { rewrite He, <- Z.pow_add_r by lia. f_equal. lia. }
  assert (2 ≤ 2 ^ e)%Z as He2.
  { change 2%Z with (2 ^ 1)%Z at 1. apply Z.pow_le_mono_r; lia. }
  rewrite (bool_decide_eq_true_2 (0 ≤ e)%Z) by lia.
  rewrite !(bool_decide_eq_true_2 (0 < k)%Z) by lia.
  set (m := round_half_even k (1 * 2 ^ e)).
  assert (2 ^ 52 ≤ m)%Z as Hm.
  { destruct (round_half_even_bounds k (1 * 2 ^ e) ltac:(lia) ltac:(lia))
      as [[Hdiv _] _].
    etrans; [|exact Hdiv]. apply Z.div_le_lower_bound; lia. }
  case_bool_decide; [by left|]. right. eexists. split; [done|].
  unfold binary64_value. rewrite bool_decide_eq_true_2 by lia.
  apply (proj1 (Z2Qc_inj_le _ _)). nia.
Qed.

Lemma binary64_after_2_53 : binary64 (Qc_of_Z (2 ^ 53 + 1)) = Fin (Qc_of_Z (2 ^ 53)).
Proof. vm_compute. reflexivity. Qed.

Lemma float_add_bool (k : Z) (b : bool) :
  (0 ≤ k ≤ 2 ^ 53)%Z →
  float_add (Fin (Qc_of_Z k)) (float_of_bool b)
  = Fin (Qc_of_Z (if b then Z.min (k + 1) (2 ^ 53) else k)).
Proof.
  intros Hk. destruct b; cbn [float_add float_of_bool].
  - rewrite <- Z2Qc_inj_1, <- Z2Qc_inj_add.
    destruct (decide (k = 2 ^ 53)%Z) as [->|Hne].
    + by rewrite binary64_after_2_53.
    + rewrite binary64_nat_exact by lia. do 2 f_equal. lia.
  - rewrite <- Z2Qc_inj_0, <- Z2Qc_inj_add, Z.add_0_r.
    by apply binary64_nat_exact.
Qed.

(** The sum of the values in doubles: exact up to 2^53, where it stays. *)
Lemma float_sum_count (l : list bool) (k0 : Z) :
  (0 ≤ k0 ≤ 2 ^ 53)%Z →
  ∃ k : Z,
    float_sum l (Fin (Qc_of_Z k0)) = Fin (Qc_of_Z k)
    ∧ (k0 ≤ k ≤ 2 ^ 53)%Z
    ∧ (k ≤ k0 + Z.of_nat (length (base.filter (λ b, b = true) l)))%Z
    ∧ ((k0 + Z.of_nat (length l) ≤ 2 ^ 53)%Z →
       k = (k0 + Z.of_nat (length (base.filter (λ b, b = true) l)))%Z).
Proof.
  revert k0. induction l as [|b l IH]; intros k0 Hk0.
  - exists k0. cbn. repeat split; lia.
  - unfold float_sum in *. cbn [foldl]. rewrite float_add_bool by done.
    rewrite filter_cons. destruct b.
    + rewrite decide_True by done. cbn [length].
      destruct (IH (Z.min (k0 + 1) (2 ^ 53)) ltac:(lia))
        as (k & Hk & Hb & Hc & He).
      exists k. split; [exact Hk|]. repeat split; lia.
    + rewrite decide_False by done. cbn [length].
      destruct (IH k0 Hk0) as (k & Hk & Hb & Hc & He).
      exists k. split; [exact Hk|]. repeat split; lia.
Qed.

Lemma np_mean_binary64_fraction (l : list bool) :
  l ≠ [] →
  let count := Z.of_nat (length (base.filter (λ b, b = true) l)) in
  let total := Z.of_nat (length l) in
  ∃ q : Qc,
    np_mean_binary64 l = Fin q
    ∧ (0 ≤ q)%Qc ∧ (q ≤ 1)%Qc
    ∧ ((total ≤ 2 ^ 53)%Z →
       Fin q = binary64 (Qc_of_Z count / Qc_of_Z total))
    ∧ (count = 0%Z → q = 0%Qc).
Proof.
  intros Hne count total. unfold np_mean_binary64.
  replace (Fin 0%Qc) with (Fin (Qc_of_Z 0)) by (by rewrite Z2Qc_inj_0).
  destruct (float_sum_count l 0 ltac:(lia)) as (k & -> & Hk & Hkc & Hex).
  fold count in Hkc, Hex. fold total in Hex.
  assert (0 < total)%Z as Htot by (subst total; destruct l; [done|cbn; lia]).
  assert (count ≤ total)%Z as Hct.
  { subst count total. pose proof (length_filter (λ b, b = true) l). lia. }
  assert (∀ y : Qc, (Qc_of_Z k ≤ y)%Qc → (0 < y)%Qc →
            ∃ q : Qc, float_div (Fin (Qc_of_Z k)) (Fin y) = Fin q
                      ∧ (0 ≤ q)%Qc ∧ (q ≤ 1)%Qc ∧ (k = 0%Z → q = 0%Qc))
    as Hdiv.
  { intros y Hky Hy. cbn [float_div].
    rewrite bool_decide_eq_false_2
      by (intros ->; by apply Qclt_not_eq in Hy).
    assert (0 ≤ Qc_of_Z k)%Qc as Hk0.
    { rewrite <- Z2Qc_inj_0. apply (proj1 (Z2Qc_inj_le _ _)). lia. }
    assert (y * (Qc_of_Z k / y) = Qc_of_Z k)%Qc as Hmul.
    { apply Qcmult_div_r. intros ->. by apply Qclt_not_eq in Hy. }
    destruct (binary64_unit (Qc_of_Z k / y)%Qc) as (q & Hq & H0 & H1).
    - apply (Qcmult_le_mono_pos_l _ _ _ Hy). by rewrite Hmul, Qcmult_0_r.
    - apply (Qcmult_le_mono_pos_l _ _ _ Hy). by rewrite Hmul, Qcmult_1_r.
    - exists q. split; [done|]. split; [done|]. split; [done|].
      intros ->. rewrite Z2Qc_inj_0 in Hq.
      unfold Qcdiv in Hq. rewrite Qcmult_0_l in Hq. by injection Hq. }
  unfold float_of_nat. fold total.
  destruct (decide (total ≤ 2 ^ 53)%Z) as [Hsmall|Hlarge].
  - rewrite binary64_nat_exact by lia.
    destruct (Hdiv (Qc_of_Z total)) as (q & Hq & H0 & H1 & Hz).
    { apply (proj1 (Z2Qc_inj_le _ _)). lia. }
    { rewrite <- Z2Qc_inj_0. apply (proj1 (Z2Qc_inj_lt _ _)). lia. }
    exists q. split; [done|]. split; [done|]. split; [done|]. split.
    + intros _. rewrite <- Hq. cbn [float_div].
      rewrite bool_decide_eq_false_2.
      * by rewrite (Hex Hsmall), Z.add_0_l.
      * rewrite <- Z2Qc_inj_0. intros Heq%Z2Qc_inj. lia.
    + intros Hc0. apply Hz. lia.
  - destruct (binary64_nat_large total ltac:(lia)) as [->|(y & -> & Hy)].
    + exists 0%Qc. cbn. split; [done|]. split; [done|].
      split; [by apply Qclt_le_weak|]. split; [lia|done].
    + assert (Qc_of_Z k ≤ Qc_of_Z (2 ^ 53))%Qc as Hk53
        by (apply (proj1 (Z2Qc_inj_le _ _)); lia).
      destruct (Hdiv y) as (q & Hq & H0 & H1 & Hz).
      { by etrans. }
      { apply Qclt_le_trans with (Qc_of_Z (2 ^ 53)); [|done].
        rewrite <- Z2Qc_inj_0. apply (proj1 (Z2Qc_inj_lt _ _)). lia. }
      exists q. split; [done|]. split; [done|]. split; [done|].
      split; [lia|]. intros Hc0. apply Hz. lia.
Qed.

(** Below 2^53 values the mean in doubles is the double nearest to the
    exact mean. *)
Lemma np_mean_binary64_round (l : list bool) :
  (Z.of_nat (length l) ≤ 2 ^ 53)%Z →
  np_mean_binary64 l
  = match np_mean l with Fin q => binary64 q | other => other end.
Proof.
  intros Hlen. destruct l as [|b l]; [by vm_compute|].
  destruct (np_mean_binary64_fraction (b :: l) ltac:(done))
    as (q & Hq & _ & _ & Heq & _).
  rewrite Hq, (Heq Hlen). done.
Qed.

(** The double that [alpha_stats] returns, for a text that is not empty. *)
Lemma alpha_stats_binary64_cases (t : str) :
  t ≠ [] →
  ∃ q : Qc,
    alpha_stats_binary64 t = Fin q
    ∧ (0 ≤ q)%Qc ∧ (q ≤ 1)%Qc
    ∧ ((Z.of_nat (length t) ≤ 2 ^ 53)%Z →
       Fin q
       = binary64
           (Qc_of_Z (Z.of_nat
              (length (base.filter (λ c, isalnum c = true) t)))
            / Qc_of_Z (Z.of_nat (length t)))%Qc)
    ∧ ((∀ c, c ∈ t → isalnum c = false) → q = 0%Qc).
Proof.
  intros Hne. unfold alpha_stats_binary64.
  destruct (np_mean_binary64_fraction (isalnum <$> t))
    as (q & Hq & H0 & H1 & Heq & Hz).
  { by destruct t. }
  rewrite length_fmap, filter_true_fmap in Heq.
  rewrite filter_true_fmap in Hz.
  exists q. split; [done|]. split; [done|]. split; [done|].
  split; [done|]. intros Hall. apply Hz.
  rewrite (proj2 (filter_none_length (λ c, isalnum c = true) t)); [done|].
  intros c Hc. by rewrite (Hall c Hc).
Qed.

(** C4, for a text that is not empty: [alpha_frac] is a double between 0
    and 1; for a text of at most 2^53 characters, up to which doubles
    count exactly, it is the double nearest to the number of alphanumeric
    characters of the text divided by the number of its characters, which
    is the quotient of the two numbers in Python; it is 0.0 when no
    character of the text is alphanumeric, as for a text of whitespace and
    punctuation. *)
Theorem alpha_stats_binary64_fraction (t : str) :
  t ≠ [] →
  ∃ q : Qc,
    alpha_stats_binary64 t = Fin q
    ∧ (0 ≤ q)%Qc ∧ (q ≤ 1)%Qc
    ∧ ((Z.of_nat (length t) ≤ 2 ^ 53)%Z →
       Fin q
       = binary64
           (Qc_of_Z (Z.of_nat
              (length (base.filter (λ c, isalnum c = true) t)))
            / Qc_of_Z (Z.of_nat (length t)))%Qc)
    ∧ ((∀ c, c ∈ t → isalnum c = false) → q = 0%Qc).
Proof. apply alpha_stats_binary64_cases. Qed.

(** The double of [alpha_stats] is the double nearest to the fraction that
    [alpha_stats] gives, and [nan] with it. *)
Lemma alpha_stats_binary64_round (t : str) :
  (Z.of_nat (length t) ≤ 2 ^ 53)%Z →
  alpha_stats_binary64 t
  = match alpha_stats t with Fin q => binary64 q | other => other end.
Proof.
  intros Hlen. unfold alpha_stats_binary64, alpha_stats.
  apply np_mean_binary64_round. by rewrite length_fmap.
Qed.

(** ** The batch writer *)

(** C6: for a positive [samples_per_file] and no fault, the loop of the
    script, over the starts that [range] gives, returns normally and writes
    the records in consecutive groups, in order: as many groups as the
    ceiling of [total / samples_per_file], each of them not empty and of at
    most [samples_per_file] records, all but the last of exactly
    [samples_per_file] records, their concatenation being the sequence of
    the records; the group [i] is in the compressed file of the shard [i],
    whose uncompressed file is gone, and no other file is changed.  The
    script runs this loop on the dataset that [deduplicate_dataset]
    returns. *)
Theorem batch_writer_partition (args : Args.t) (data_dir : string)
    (ds_filter : list example) (fs : filesystem) :
  (0 < Args.samples_per_file args)%Z →
  ∃ (starts : list Z) (groups : list (list example)),
    py_range 0 (Z.of_nat (length ds_filter)) (Args.samples_per_file args)
    = Ok starts
    ∧ let run :=
        save_loop args data_dir ds_filter (λ _, NoFault) (enumerate starts)
          fs in
      run.1 = Ok ()
      ∧ Z.of_nat (length groups)
        = ((Z.of_nat (length ds_filter) + Args.samples_per_file args - 1)
             `div` Args.samples_per_file args)%Z
      ∧ concat groups = ds_filter
      ∧ (∀ (i : nat) (g : list example), groups !! i = Some g →
           g = take (Z.to_nat (Args.samples_per_file args))
                 (drop (i * Z.to_nat (Args.samples_per_file args)) ds_filter)
           ∧ (0 < length g)%nat
           ∧ (Z.of_nat (length g) ≤ Args.samples_per_file args)%Z
           ∧ ((S i < length groups)%nat →
              Z.of_nat (length g) = Args.samples_per_file args)
           ∧ run.2 !! shard_path data_dir i = None
           ∧ run.2 !! (shard_path data_dir i +:+ ".gz")
             = Some (gzip_compress compresslevel (to_json g)))
      ∧ (∀ q, (∀ i, (i < length groups)%nat →
                 q ≠ shard_path data_dir i
                 ∧ q ≠ shard_path data_dir i +:+ ".gz") →
              run.2 !! q = fs !! q)
      ∧ (∀ (corpus : list str) (ds : list example) (fs0 : filesystem),
           mapM preprocess corpus = Ok ds → ds ≠ [] →
           ds_filter = (reduced_dataset args ds).1 →
           data_dir = data_dir_of args →
           fs = <[clusters_path args := json_dump (reduced_dataset args ds).2]>
                  fs0 →
           main args corpus (λ _, NoFault) fs0 = run).
Proof.
  intros Hs.
  destruct (shards_partition ds_filter (Args.samples_per_file args) Hs)
    as (groups & Hgroups & Hcount & Hcat & Hsizes).
  destruct (shards_items _ _ _ Hgroups) as (starts & Hstarts & Hlen & Hsg & Hgs).
  exists starts, groups. split; [done|]. cbn zeta.
  destruct (save_loop_done args data_dir ds_filter (λ _, NoFault)
              (enumerate starts) fs (enumerate_NoDup starts)) as [Hok Hfiles].
  { intros item Hitem%enumerate_elem_of. split; [done|].
    destruct (Hsg _ _ Hitem) as (g & _ & Hr). eauto. }
  split; [done|]. split; [done|]. split; [done|]. split; [|split].
  - intros i g Hg. destruct (Hsizes i g Hg) as (Hslice & Hpos & Hle & Hfull).
    destruct (Hgs i g Hg) as (index & Hi & Hr).
    destruct (Hfiles i index g) as [Hgone Hgz]; [|done|].
    { by apply enumerate_elem_of. }
    done.
  - intros q Hq. apply save_loop_frame.
    intros item Hitem%enumerate_elem_of. apply Hq.
    rewrite <- Hlen. by apply lookup_lt_Some in Hitem.
  - intros corpus ds fs0 Hds Hne -> -> ->.
    rewrite (main_after_clusters _ _ _ _ _ Hds Hne). cbn zeta.
    by rewrite Hstarts.
Qed.

End program.

End deduplicate.

(** ** Instances of the claims *)

Import deduplicate.

Lemma check_uniques_keeps_first_of_group_witness :
  corpus_abc !! 1%nat = Some record_abcd
  ∧ let uniques : gset string := list_to_set (hash <$> corpus_abc) in
    let mask := (eval_in_order check_uniques corpus_abc uniques).1 in
    mask !! 1%nat
    = Some (bool_decide (hash record_abcd ∉ hash <$> take 1 corpus_abc))
    ∧ length (base.filter (λ ex', hash ex' = hash record_abcd)
                (select_mask corpus_abc mask)) = 1%nat.
Proof.
  split; [reflexivity|].
  apply (check_uniques_keeps_first_of_group corpus_abc 1 record_abcd).
  reflexivity.
Defined.

(** The verdicts on the three records: the second has the hash of the
    first. *)
Example check_uniques_corpus_abc :
  eval_in_order check_uniques corpus_abc (list_to_set (hash <$> corpus_abc))
  = ([true; false; true], ∅).
Proof. by vm_compute. Qed.

Lemma filter_consumes_hash_of_rejected_witness :
  let uniques : gset string := list_to_set (hash <$> corpus_abc) in
  hash record_ab_cd ∈ uniques
  ∧ (float_lt (alpha_frac record_ab_cd) (Args.alpha_frac args_level_9) = true
     ∨ line_len record_ab_cd = [])
  ∧ hash record_abcd = hash record_ab_cd
  ∧ let after := (filter record_ab_cd uniques args_level_9).2 in
    let later :=
      (eval_in_order (λ ex uniques, filter ex uniques args_level_9)
         [record_abc] after).2 in
    (filter record_ab_cd uniques args_level_9).1 = false
    ∧ after = (check_uniques record_ab_cd uniques).2
    ∧ after = uniques ∖ {[hash record_ab_cd]}
    ∧ (filter record_abcd later args_level_9).1 = false.
Proof.
  intros uniques.
  assert (hash record_ab_cd ∈ uniques) as Hin.
  { refine (bool_decide_unpack (hash record_ab_cd ∈ uniques) _).
    vm_compute. exact I. }
  assert (float_lt (alpha_frac record_ab_cd) (Args.alpha_frac args_level_9)
          = true ∨ line_len record_ab_cd = []) as Hq.
  { left. vm_compute. reflexivity. }
  split; [exact Hin|]. split; [exact Hq|]. split; [reflexivity|].
  exact (filter_consumes_hash_of_rejected record_ab_cd record_abcd uniques
           args_level_9 [record_abc] Hin Hq eq_refl).
Defined.

Lemma get_hash_whitespace_insensitive_witness :
  ([0x61; 0x62; 0x20; 0x63; 0x64] = [0x61; 0x62; 0x63; 0x64]
   ∨ differ_in_whitespace [0x61; 0x62; 0x20; 0x63; 0x64]
       [0x61; 0x62; 0x63; 0x64])
  ∧ get_hash digest_sum [0x61; 0x62; 0x20; 0x63; 0x64]
    = get_hash digest_sum [0x61; 0x62; 0x63; 0x64].
Proof.
  assert (differ_in_whitespace [0x61; 0x62; 0x20; 0x63; 0x64]
            [0x61; 0x62; 0x63; 0x64]) as Hd.
  { apply diw_same, diw_same, diw_left; [reflexivity|].
    apply diw_same, diw_same, diw_nil. }
  split; [right; exact Hd|].
  apply (get_hash_whitespace_insensitive digest_sum). right. exact Hd.
Defined.

(** No whitespace and no punctuation of ASCII is alphanumeric. *)
Lemma isalnum_ascii_space_punct (c : N) :
  isspace c = true ∨ ispunct_ascii c = true → isalnum_ascii c = false.
Proof.
  unfold isspace, ispunct_ascii, isalnum_ascii.
  rewrite !orb_true_iff, !bool_decide_eq_true. intros Hc.
  apply not_true_iff_false.
  rewrite !orb_true_iff, !bool_decide_eq_true. lia.
Qed.

(** A text of whitespace and punctuation that is not empty has the
    fraction 0.0. *)
Lemma alpha_stats_binary64_space_punct (t : str) :
  t ≠ [] →
  (∀ c, c ∈ t → isspace c = true ∨ ispunct_ascii c = true) →
  alpha_stats_binary64 isalnum_ascii t = Fin 0%Qc.
Proof.
  intros Hne Hall.
  destruct (alpha_stats_binary64_cases isalnum_ascii t Hne)
    as (q & Hq & _ & _ & _ & Hz).
  rewrite Hq, Hz; [done|].
  intros c Hc. apply isalnum_ascii_space_punct, Hall, Hc.
Qed.

(** The texts ["ab cd"], of four alphanumeric characters in five, and
    [" . "], of whitespace and punctuation. *)
Lemma alpha_stats_binary64_fraction_witness :
  ([0x61; 0x62; 0x20; 0x63; 0x64] ≠ []
   ∧ ∃ q : Qc,
       alpha_stats_binary64 isalnum_ascii [0x61; 0x62; 0x20; 0x63; 0x64]
       = Fin q
       ∧ (0 ≤ q)%Qc ∧ (q ≤ 1)%Qc
       ∧ ((Z.of_nat (length [0x61; 0x62; 0x20; 0x63; 0x64]) ≤ 2 ^ 53)%Z →
          Fin q
          = binary64
              (Qc_of_Z (Z.of_nat
                 (length (base.filter (λ c, isalnum_ascii c = true)
                    [0x61; 0x62; 0x20; 0x63; 0x64])))
               / Qc_of_Z (Z.of_nat (length [0x61; 0x62; 0x20; 0x63; 0x64])))%Qc)
       ∧ ((∀ c, c ∈ [0x61; 0x62; 0x20; 0x63; 0x64] → isalnum_ascii c = false)
          → q = 0%Qc))
  ∧ ([0x20; 0x2E; 0x20] ≠ []
     ∧ (∀ c, c ∈ [0x20; 0x2E; 0x20] → isalnum_ascii c = false)
     ∧ alpha_stats_binary64 isalnum_ascii [0x20; 0x2E; 0x20] = Fin 0%Qc).
Proof.
  assert ([0x61; 0x62; 0x20; 0x63; 0x64] ≠ @nil N) as Hne by discriminate.
  assert ([0x20; 0x2E; 0x20] ≠ @nil N) as Hne' by discriminate.
  assert (∀ c, c ∈ [0x20; 0x2E; 0x20] → isalnum_ascii c = false) as Hnone.
  { intros c Hc. rewrite !elem_of_cons in Hc.
    destruct Hc as [->|[->|[->|Hc]]]; [reflexivity..|].
    by apply elem_of_nil in Hc. }
  split.
  - split; [exact Hne|].
    exact (alpha_stats_binary64_fraction isalnum_ascii
             [0x61; 0x62; 0x20; 0x63; 0x64] Hne).
  - split; [exact Hne'|]. split; [exact Hnone|].
    destruct (alpha_stats_binary64_fraction isalnum_ascii
                [0x20; 0x2E; 0x20] Hne') as (q & Hq & _ & _ & _ & Hz).
    rewrite Hq. f_equal. exact (Hz Hnone).
Defined.

(** C4 as stated fails on the empty text: its mean is [nan], which is not
    a fraction of [0, 1], and not the 0.0 of a text without alphanumeric
    character. *)
Lemma alpha_stats_empty_text_counterexample :
  alpha_stats_binary64 isalnum_ascii [] = NaN
  ∧ ¬ (∃ q : Qc, alpha_stats_binary64 isalnum_ascii [] = Fin q
                 ∧ (0 ≤ q)%Qc ∧ (q ≤ 1)%Qc)
  ∧ (∀ c, c ∈ @nil N → isalnum_ascii c = false)
  ∧ alpha_stats_binary64 isalnum_ascii [] ≠ Fin 0%Qc.
Proof.
  assert (alpha_stats_binary64 isalnum_ascii [] = NaN) as Hnan
    by (vm_compute; reflexivity).
  split; [exact Hnan|]. split; [|split].
  - intros (q & Hq & _). rewrite Hnan in Hq. discriminate Hq.
  - intros c Hc. by apply elem_of_nil in Hc.
  - rewrite Hnan. discriminate.
Qed.

(** The double of ["ab cd"] is the double of 4/5, a little more than 4/5;
    the double of ["a........."] is the double of 1/10, a little more than
    1/10. *)
Example alpha_stats_binary64_ab_cd :
  alpha_stats_binary64 isalnum_ascii [0x61; 0x62; 0x20; 0x63; 0x64]
  = Fin (Qc_of_Z 3602879701896397 / Qc_of_Z 4503599627370496)%Qc
  ∧ alpha_stats isalnum_ascii [0x61; 0x62; 0x20; 0x63; 0x64]
    = Fin (Qc_of_Z 4 / Qc_of_Z 5)%Qc
  ∧ (Qc_of_Z 4 / Qc_of_Z 5
     < Qc_of_Z 3602879701896397 / Qc_of_Z 4503599627370496)%Qc.
Proof.
  split; [|split].
  - vm_compute. first [reflexivity | f_equal; apply Qc_is_canon; reflexivity].
  - vm_compute. first [reflexivity | f_equal; apply Qc_is_canon; reflexivity].
  - reflexivity.
Qed.

Example alpha_stats_binary64_one_tenth :
  alpha_stats_binary64 isalnum_ascii
    [0x61; 0x2E; 0x2E; 0x2E; 0x2E; 0x2E; 0x2E; 0x2E; 0x2E; 0x2E]
  = Fin (Qc_of_Z 3602879701896397 / Qc_of_Z 36028797018963968)%Qc
  ∧ (Qc_of_Z 1 / Qc_of_Z 10
     < Qc_of_Z 3602879701896397 / Qc_of_Z 36028797018963968)%Qc.
Proof.
  split.
  - vm_compute. first [reflexivity | f_equal; apply Qc_is_canon; reflexivity].
  - reflexivity.
Qed.

(** The two records that the three texts leave, in shards of one, with
    [text_lines] and [gzip_stored], in a directory that holds the file of
    the clusters. *)
Lemma batch_writer_partition_witness :
  let args := args_with one_half 1 in
  let fs : filesystem := {[ clusters_path args := no_clusters () ]} in
  (0 < Args.samples_per_file args)%Z
  ∧ ∃ (starts : list Z) (groups : list (list example)),
      py_range 0 (Z.of_nat (length records_ab_sum))
        (Args.samples_per_file args)
      = Ok starts
      ∧ let run :=
          save_loop text_lines gzip_stored args "out/data" records_ab_sum
            (λ _, NoFault) (enumerate starts) fs in
        run.1 = Ok ()
        ∧ Z.of_nat (length groups)
          = ((Z.of_nat (length records_ab_sum)
              + Args.samples_per_file args - 1)
               `div` Args.samples_per_file args)%Z
        ∧ concat groups = records_ab_sum
        ∧ (∀ (i : nat) (g : list example), groups !! i = Some g →
             g = take (Z.to_nat (Args.samples_per_file args))
                   (drop (i * Z.to_nat (Args.samples_per_file args))
                      records_ab_sum)
             ∧ (0 < length g)%nat
             ∧ (Z.of_nat (length g) ≤ Args.samples_per_file args)%Z
             ∧ ((S i < length groups)%nat →
                Z.of_nat (length g) = Args.samples_per_file args)
             ∧ run.2 !! shard_path "out/data" i = None
             ∧ run.2 !! (shard_path "out/data" i +:+ ".gz")
               = Some (gzip_stored compresslevel (text_lines g)))
        ∧ (∀ q, (∀ i, (i < length groups)%nat →
                   q ≠ shard_path "out/data" i
                   ∧ q ≠ shard_path "out/data" i +:+ ".gz") →
                run.2 !! q = fs !! q)
        ∧ (∀ (corpus : list str) (ds : list example) (fs0 : filesystem),
             mapM (preprocess isalnum_ascii digest_sum) corpus = Ok ds →
             ds ≠ [] →
             records_ab_sum = (reduced_dataset () keep_all args ds).1 →
             "out/data"%string = data_dir_of args →
             fs = <[clusters_path args :=
                      no_clusters (reduced_dataset () keep_all args ds).2]>
                    fs0 →
             main isalnum_ascii digest_sum () keep_all no_clusters text_lines
               gzip_stored args corpus (λ _, NoFault) fs0
             = run).
Proof.
  intros args fs.
  assert (0 < Args.samples_per_file args)%Z as Hpos by reflexivity.
  split; [exact Hpos|].
  exact (batch_writer_partition isalnum_ascii digest_sum () keep_all
           no_clusters text_lines gzip_stored args "out/data"
           records_ab_sum fs Hpos).
Defined.

(** The script on the three texts runs that loop. *)
Example batch_writer_main_abc :
  let args := args_with one_half 1 in
  mapM (preprocess isalnum_ascii digest_sum) texts_abc = Ok records_abc_sum
  ∧ records_ab_sum = (reduced_dataset () keep_all args records_abc_sum).1
  ∧ "out/data"%string = data_dir_of args
  ∧ ({[ clusters_path args := no_clusters () ]} : filesystem)
    = <[clusters_path args :=
          no_clusters (reduced_dataset () keep_all args records_abc_sum).2]> ∅
  ∧ main isalnum_ascii digest_sum () keep_all no_clusters text_lines
      gzip_stored args texts_abc (λ _, NoFault) ∅
    = save_loop text_lines gzip_stored args "out/data" records_ab_sum
        (λ _, NoFault) (enumerate [0; 1]%Z)
        {[ clusters_path args := no_clusters () ]}.
Proof.
  cbn zeta. split; [reflexivity|]. split; [reflexivity|].
  split; [reflexivity|]. split; [|vm_compute; reflexivity].
  by rewrite insert_empty.
Qed.

(** The files of that run. *)
Example batch_writer_corpus_abc :
  save_loop text_lines gzip_stored (args_with one_half 2) "out/data"
    corpus_abc (λ _, NoFault) (enumerate [0; 2]%Z) ∅
  = (Ok (),
     {[ "out/data/file-000000000001.json.gz"%string :=
          gzip_stored 6 (text_lines [record_ab_cd; record_abcd]);
        "out/data/file-000000000002.json.gz"%string :=
          gzip_stored 6 (text_lines [record_abc]) ]}).
Proof. vm_compute. reflexivity. Qed.

Example shards_corpus_abc :
  shards corpus_abc 2 = Ok [[record_ab_cd; record_abcd]; [record_abc]].
Proof. reflexivity. Qed.

Lemma compress_file_atomic_witness :
  let file_path := "out/data/file-000000000001.json"%string in
  fs_one_shard !! file_path = Some [0x7B; 0x7D; 0x0A]
  ∧ let result := (compress_file gzip_stored NoFault file_path fs_one_shard).1 in
    let fs' := (compress_file gzip_stored NoFault file_path fs_one_shard).2 in
    (result = Ok () ∧ NoFault = NoFault
     ∧ fs' !! file_path = None
     ∧ fs' !! (file_path +:+ ".gz")
       = Some (gzip_stored compresslevel [0x7B; 0x7D; 0x0A]))
    ∨ (∃ e, result = Raise e) ∧ NoFault ≠ NoFault
      ∧ fs' !! file_path = Some [0x7B; 0x7D; 0x0A].
Proof.
  intros file_path.
  assert (fs_one_shard !! file_path = Some [0x7B; 0x7D; 0x0A]) as Hsrc
    by (vm_compute; reflexivity).
  split; [exact Hsrc|].
  exact (compress_file_atomic gzip_stored NoFault file_path fs_one_shard
           [0x7B; 0x7D; 0x0A] Hsrc).
Defined.

(** A copy that stops after two bytes leaves both files, and raises. *)
Example compress_file_copy_fails :
  compress_file gzip_stored (CopyFails [6; 0x7B])
    "out/data/file-000000000001.json"
    fs_one_shard
  = (Raise OSError,
     <["out/data/file-000000000001.json.gz"%string := [6; 0x7B]]> fs_one_shard).
Proof. reflexivity. Qed.

Lemma save_shard_level_6_witness :
  shard_rows corpus_abc (Args.samples_per_file args_level_9) 0
  = Ok [record_ab_cd; record_abcd]
  ∧ let file_path :=
      path_join "out/data" ("file-" +:+ format_012 (0 + 1) +:+ ".json") in
    compresslevel = 6%Z
    ∧ save_shard text_lines gzip_stored args_level_9 "out/data" corpus_abc
        NoFault 0 0 ∅
      = (Ok (),
         delete file_path
           (<[file_path +:+ ".gz"
                := gzip_stored 6 (text_lines [record_ab_cd; record_abcd])]>
              (<[file_path := text_lines [record_ab_cd; record_abcd]]> ∅))).
Proof.
  assert (shard_rows corpus_abc (Args.samples_per_file args_level_9) 0
          = Ok [record_ab_cd; record_abcd]) as Hrows by reflexivity.
  split; [exact Hrows|].
  exact (save_shard_level_6 text_lines gzip_stored args_level_9 "out/data"
           corpus_abc 0 0 ∅ [record_ab_cd; record_abcd] Hrows).
Defined.

(** C9 as stated fails for a configuration that asks for level 9: the level
    of [compress_file] is 6, and the shard is not the one of level 9. *)
Lemma compression_level_counterexample :
  compresslevel ≠ Args.compression_level args_level_9
  ∧ (save_shard text_lines gzip_stored args_level_9 "out/data" corpus_abc
       NoFault 0 0 ∅).2 !! "out/data/file-000000000001.json.gz"%string
    ≠ Some (gzip_stored (Args.compression_level args_level_9)
              (text_lines [record_ab_cd; record_abcd])).
Proof.
  split; [discriminate|]. vm_compute. discriminate.
Qed.

(** The run on no record, in any environment. *)
Example main_no_record :
  main isalnum_ascii digest_sum () (λ ds _, (ds, ())) (λ _, []) text_lines
    gzip_stored args_level_9 [] (λ _, NoFault) ∅
  = (Raise ZeroDivisionError, ∅).
Proof. reflexivity. Qed.

(** The scenario of the three texts with a minimum fraction of 0.5: the
    second record has the hash of the first and is dropped. *)
Example filter_corpus_abc :
  Dataset_filter
    (λ ex uniques, filter ex uniques
       {| Args.dataset_name := "codeparrot";
          Args.dataset_subset := "train";
          Args.output_dir := "out";
          Args.samples_per_file := 2;
          Args.alpha_frac := Fin (Qc_of_Z 1 / Qc_of_Z 2)%Qc;
          Args.jaccard_threshold := Fin (Qc_of_Z 85 / Qc_of_Z 100)%Qc;
          Args.compression_level := 6 |})
    corpus_abc (list_to_set (hash <$> corpus_abc))
  = ([record_ab_cd; record_abc], ∅).
Proof. by vm_compute. Qed.

(** With a minimum fraction of 0.9 the first record is rejected on its
    fraction of 0.8, and the second on its hash. *)
Example filter_corpus_abc_level_9 :
  Dataset_filter (λ ex uniques, filter ex uniques args_level_9)
    corpus_abc (list_to_set (hash <$> corpus_abc))
  = ([record_abc], ∅).
Proof. by vm_compute. Qed.

(** The features of the text ["ab cd"]. *)
Example preprocess_ab_cd :
  preprocess isalnum_ascii digest_sum [0x61; 0x62; 0x20; 0x63; 0x64]
  = Ok {| text := [0x61; 0x62; 0x20; 0x63; 0x64];
          hash := "394";
          alpha_frac := Fin (Qc_of_Z 4 / Qc_of_Z 5)%Qc;
          line_len := [5%nat] |}.
Proof. reflexivity. Qed.

(** ** Instances of the further properties *)

Lemma filter_threshold_monotone_witness :
  let uniques : gset string := {[hash record_abcd]} in
  let args1 := args_with one_half 2 in
  let x : Qc := (Qc_of_Z 1 / Qc_of_Z 2)%Qc in
  let y : Qc := (Qc_of_Z 9 / Qc_of_Z 10)%Qc in
  Args.alpha_frac args1 = Fin x
  ∧ Args.alpha_frac args_level_9 = Fin y
  ∧ (x ≤ y)%Qc
  ∧ (filter record_abcd uniques args_level_9).1 = true
  ∧ (filter record_abcd uniques args1).1 = true
  ∧ (filter record_abcd uniques args1).2
    = (filter record_abcd uniques args_level_9).2.
Proof.
  intros uniques args1 x y.
  assert (x ≤ y)%Qc as Hxy by (vm_compute; discriminate).
  assert ((filter record_abcd uniques args_level_9).1 = true) as Hacc
    by (vm_compute; reflexivity).
  split; [reflexivity|]. split; [reflexivity|]. split; [exact Hxy|].
  split; [exact Hacc|].
  exact (filter_threshold_monotone record_abcd uniques args1 args_level_9 x y
           eq_refl eq_refl Hxy Hacc).
Defined.

Lemma filter_repeated_call_witness :
  let uniques : gset string := list_to_set (hash <$> corpus_abc) in
  hash record_abcd = hash record_ab_cd
  ∧ filter record_abcd (filter record_ab_cd uniques args_level_9).2
      args_level_9
    = (false, (filter record_ab_cd uniques args_level_9).2).
Proof.
  intros uniques. split; [reflexivity|].
  exact (filter_repeated_call record_ab_cd record_abcd uniques args_level_9
           args_level_9 eq_refl).
Defined.

Lemma Dataset_filter_kept_quality_witness :
  let uniques : gset string := list_to_set (hash <$> corpus_abc) in
  let args := args_with one_half 2 in
  record_abc
    ∈ (Dataset_filter (λ ex uniques, filter ex uniques args) corpus_abc
         uniques).1
  ∧ hash record_abc ∈ uniques
  ∧ float_lt (alpha_frac record_abc) (Args.alpha_frac args) = false
  ∧ line_len record_abc ≠ [].
Proof.
  intros uniques args.
  assert (record_abc
            ∈ (Dataset_filter (λ ex uniques, filter ex uniques args)
                 corpus_abc uniques).1) as Hin.
  { apply (list_elem_of_lookup_2 _ 1%nat). vm_compute. reflexivity. }
  split; [exact Hin|].
  exact (Dataset_filter_kept_quality corpus_abc uniques args record_abc Hin).
Defined.

Lemma filter_pass_verdict_witness :
  let uniques : gset string := list_to_set (hash <$> corpus_abc) in
  let args := args_with one_half 2 in
  corpus_abc !! 1%nat = Some record_abcd
  ∧ (eval_in_order (λ ex uniques, filter ex uniques args) corpus_abc
       uniques).1 !! 1%nat
    = Some (bool_decide (hash record_abcd ∈ uniques
                         ∧ hash record_abcd ∉ hash <$> take 1 corpus_abc)
            && negb (float_lt (alpha_frac record_abcd) (Args.alpha_frac args))
            && negb (bool_decide (line_len record_abcd = []))).
Proof.
  intros uniques args. split; [reflexivity|].
  exact (filter_pass_verdict corpus_abc uniques args 1 record_abcd eq_refl).
Defined.

Lemma whitespace_duplicate_dropped_witness :
  let uniques : gset string := list_to_set (hash <$> records_abc_sum) in
  let args := args_with one_half 2 in
  mapM (preprocess isalnum_ascii digest_sum) texts_abc = Ok records_abc_sum
  ∧ texts_abc !! 0%nat = Some [0x61; 0x62; 0x20; 0x63; 0x64]
  ∧ texts_abc !! 1%nat = Some [0x61; 0x62; 0x63; 0x64]
  ∧ (0 < 1)%nat
  ∧ differ_in_whitespace [0x61; 0x62; 0x20; 0x63; 0x64]
      [0x61; 0x62; 0x63; 0x64]
  ∧ (eval_in_order (λ ex uniques, filter ex uniques args) records_abc_sum
       uniques).1 !! 1%nat
    = Some false.
Proof.
  intros uniques args.
  assert (differ_in_whitespace [0x61; 0x62; 0x20; 0x63; 0x64]
            [0x61; 0x62; 0x63; 0x64]) as Hd.
  { apply diw_same, diw_same, diw_left; [reflexivity|].
    apply diw_same, diw_same, diw_nil. }
  assert (0 < 1)%nat as Hlt by lia.
  split; [reflexivity|]. split; [reflexivity|]. split; [reflexivity|].
  split; [exact Hlt|]. split; [exact Hd|].
  exact (whitespace_duplicate_dropped isalnum_ascii digest_sum texts_abc
           records_abc_sum uniques args 0 1 _ _ eq_refl eq_refl eq_refl
           Hlt Hd).
Defined.


Lemma shard_files_distinct_witness :
  0%nat ≠ 1%nat
  ∧ let data_dir := data_dir_of args_level_9 in
    shard_path data_dir 0 ≠ shard_path data_dir 1
    ∧ shard_path data_dir 0 +:+ ".gz" ≠ shard_path data_dir 1 +:+ ".gz"
    ∧ shard_path data_dir 0 ≠ shard_path data_dir 1 +:+ ".gz"
    ∧ shard_path data_dir 0 ≠ shard_path data_dir 0 +:+ ".gz"
    ∧ clusters_path args_level_9 ≠ shard_path data_dir 0
    ∧ clusters_path args_level_9 ≠ shard_path data_dir 0 +:+ ".gz".
Proof.
  assert (0%nat ≠ 1%nat) as Hne by lia.
  split; [exact Hne|]. exact (shard_files_distinct args_level_9 0 1 Hne).
Defined.

(** The names of the first shard and of the clusters. *)
Example shard_path_first :
  shard_path (data_dir_of args_level_9) 0 = "out/data/file-000000000001.json"
  ∧ clusters_path args_level_9 = "out/duplicate_clusters.json".
Proof. split; reflexivity. Qed.

Lemma compress_file_footprint_witness :
  let file_path := "out/data/file-000000000001.json"%string in
  let q := "out/duplicate_clusters.json"%string in
  q ≠ file_path ∧ q ≠ file_path +:+ ".gz"
  ∧ (compress_file gzip_stored (CopyFails [0x1F]) file_path fs_one_shard).2
      !! q = fs_one_shard !! q
  ∧ (fs_one_shard !! file_path = None →
     compress_file gzip_stored (CopyFails [0x1F]) file_path fs_one_shard
     = (Raise FileNotFoundError, fs_one_shard)).
Proof.
  intros file_path q.
  assert (q ≠ file_path) as H1 by discriminate.
  assert (q ≠ file_path +:+ ".gz") as H2 by discriminate.
  split; [exact H1|]. split; [exact H2|].
  exact (compress_file_footprint gzip_stored (CopyFails [0x1F]) file_path
           fs_one_shard q H1 H2).
Defined.

(** A missing source: nothing changes. *)
Example compress_file_missing_source :
  compress_file gzip_stored NoFault "out/data/file-000000000002.json"
    fs_one_shard
  = (Raise FileNotFoundError, fs_one_shard).
Proof. reflexivity. Qed.


(** The files after the run on the three texts, one record per shard. *)
Example main_texts_abc :
  main isalnum_ascii digest_sum () keep_all no_clusters text_lines
    gzip_stored (args_with one_half 1) texts_abc (λ _, NoFault) ∅
  = (Ok (),
     {[ "out/duplicate_clusters.json"%string := [0x7B; 0x7D];
        "out/data/file-000000000001.json.gz"%string
          := [6; 0x61; 0x62; 0x20; 0x63; 0x64; 0x0A];
        "out/data/file-000000000002.json.gz"%string
          := [6; 0x61; 0x62; 0x63; 0x0A] ]}).
Proof. by vm_compute. Qed.


(** The files after the run in which the copy of the second shard stops. *)
Example main_texts_abc_fault :
  main isalnum_ascii digest_sum () keep_all no_clusters text_lines
    gzip_stored (args_with one_half 1) texts_abc fault_at_second ∅
  = (Raise OSError,
     {[ "out/duplicate_clusters.json"%string := [0x7B; 0x7D];
        "out/data/file-000000000001.json.gz"%string
          := [6; 0x61; 0x62; 0x20; 0x63; 0x64; 0x0A];
        "out/data/file-000000000002.json.gz"%string := [0x1F];
        "out/data/file-000000000002.json"%string
          := [0x61; 0x62; 0x63; 0x0A] ]}).
Proof. by vm_compute. Qed.



Lemma main_text_not_encodable_witness :
  let corpus : list str := [[0x61]; [0x62; 0xD800]] in
  [0x62; 0xD800] ∈ corpus
  ∧ 0xD800 ∈ [0x62; 0xD800]
  ∧ isspace 0xD800 = false
  ∧ not_encodable 0xD800
  ∧ main isalnum_ascii digest_sum () keep_all no_clusters text_lines
      gzip_stored args_level_9 corpus (λ _, NoFault) ∅
    = (Raise UnicodeEncodeError, ∅).
Proof.
  intros corpus.
  assert ([0x62; 0xD800] ∈ corpus) as Ht
    by (apply (list_elem_of_lookup_2 _ 1%nat); reflexivity).
  assert (0xD800 ∈ [0x62; 0xD800]) as Hc
    by (apply (list_elem_of_lookup_2 _ 1%nat); reflexivity).
  assert (not_encodable 0xD800) as Hbad by (left; split; discriminate).
  split; [exact Ht|]. split; [exact Hc|]. split; [reflexivity|].
  split; [exact Hbad|].
  exact (main_text_not_encodable isalnum_ascii digest_sum () keep_all
           no_clusters text_lines gzip_stored args_level_9 corpus
           (λ _, NoFault) ∅ _ _ Ht Hc eq_refl Hbad).
Defined.

Lemma get_hash_equal_witness :
  get_hash digest_sum [0x61; 0x62; 0x20; 0x63; 0x64] = Ok "394"%string
  ∧ get_hash digest_sum [0x61; 0x62; 0x63; 0x64] = Ok "394"%string
  ∧ (differ_in_whitespace [0x61; 0x62; 0x20; 0x63; 0x64]
       [0x61; 0x62; 0x63; 0x64]
     ∨ ∃ b1 b2, b1 ≠ b2
         ∧ encode_utf8 (re_sub_PATTERN [0x61; 0x62; 0x20; 0x63; 0x64]) = Ok b1
         ∧ encode_utf8 (re_sub_PATTERN [0x61; 0x62; 0x63; 0x64]) = Ok b2
         ∧ digest_sum b1 = digest_sum b2).
Proof.
  split; [reflexivity|]. split; [reflexivity|].
  exact (get_hash_equal digest_sum [0x61; 0x62; 0x20; 0x63; 0x64]
           [0x61; 0x62; 0x63; 0x64] "394" eq_refl eq_refl).
Defined.

(** The sum of the bytes does collide: two texts with the same digest
    that differ in more than whitespace. *)
Example digest_sum_collision :
  get_hash digest_sum [0x61; 0x63] = get_hash digest_sum [0x62; 0x62]
  ∧ re_sub_PATTERN [0x61; 0x63] ≠ re_sub_PATTERN [0x62; 0x62].
Proof. split; [reflexivity|discriminate]. Qed.

Lemma group_kept_iff_first_passes_witness :
  corpus_abc !! 0%nat = Some record_ab_cd
  ∧ (hash record_ab_cd ∉ hash <$> take 0 corpus_abc)
  ∧ (hash record_ab_cd ∈ hash <$> filtered_dataset args_level_9 corpus_abc
     ↔ float_lt (alpha_frac record_ab_cd) (Args.alpha_frac args_level_9)
       = false
       ∧ line_len record_ab_cd ≠ [])
  ∧ (record_ab_cd ∈ filtered_dataset args_level_9 corpus_abc
     ↔ float_lt (alpha_frac record_ab_cd) (Args.alpha_frac args_level_9)
       = false
       ∧ line_len record_ab_cd ≠ []).
Proof.
  assert (hash record_ab_cd ∉ hash <$> take 0 corpus_abc) as Hfirst
    by apply not_elem_of_nil.
  split; [reflexivity|]. split; [exact Hfirst|].
  exact (group_kept_iff_first_passes corpus_abc args_level_9 0 record_ab_cd
           eq_refl Hfirst).
Defined.

